(** * GitLab pipeline flakiness analysis: a shallow embedding

    Source: python-scripts/gitlab/gitlab_pipeline_performance_with_retry.py

    The development follows the script bottom-up:
    - [PyStr]      the [str] methods the script calls ([find], [split], [in],
                   slicing), with Python's conventions;
    - [Fetcher]    [update_rate_limit_info], [make_api_request_with_retry];
    - [Paginator]  the [while url:] loop of [fetch_pipelines] and
                   [fetch_pipeline_jobs], and [fetch_pipeline_jobs_with_metadata];
    - [Analysis]   the reduction phase of
                   [analyze_flakiness_vs_legitimate_failures];
    - [Report]     the totals and rates of [write_flakiness_analysis_stats];
    - [Dispatcher] the thread-pool fan-out of
                   [analyze_flakiness_vs_legitimate_failures].
    [Counting] and [Attempt] hold the vocabulary of the statements,
    [Examples] the concrete data; the properties come last.
    - [Sanitize]   [sanitize_filename];
    - [Branches]   the six branches of the classifier, by name;
    - [Summary]    the percentages of [write_flakiness_analysis_stats];
    - [Pages], [Invariants], [Cases]: vocabulary and data of the further
                   properties.

    Python integers are unbounded: they are [Z] here.  Logging is not
    modelled, but for the error line of a failed pipeline. *)

From Stdlib Require Import ZArith List String Ascii Bool Lia Permutation QArith.
From Stdlib Require Import DecimalString Sorted.
Import ListNotations.

Local Open Scope string_scope.
Local Open Scope list_scope.
Local Open Scope Z_scope.

(* ================================================================= *)
(** ** Python strings *)

Module PyStr.

(** [s.find(c)] for a one-character [c]: the lowest index of [c] in [s],
    and [-1] when [c] does not occur. *)
Fixpoint find (c : ascii) (s : string) : Z :=
  match s with
  | EmptyString => -1
  | String d s' =>
      if Ascii.eqb d c then 0
      else let i := find c s' in if i <? 0 then -1 else i + 1
  end.

(** [s.split(c)] for a one-character separator: the pieces between the
    occurrences of [c]; never empty ([''.split(',') == ['']]). *)
Fixpoint split (c : ascii) (s : string) : list string :=
  match s with
  | EmptyString => [EmptyString]
  | String d s' =>
      match split c s' with
      | [] => [String d EmptyString]
      | piece :: pieces =>
          if Ascii.eqb d c then EmptyString :: piece :: pieces
          else String d piece :: pieces
      end
  end.

(** [needle in s]: [needle] occurs in [s] as a contiguous substring. *)
Fixpoint contains (needle s : string) : bool :=
  String.prefix needle s ||
  match s with
  | EmptyString => false
  | String _ s' => contains needle s'
  end.

(** A slice bound as [slice.indices] normalises it (step 1): a negative
    bound counts from the end, and the result is clamped to [0, len]. *)
Definition slice_bound (len i : Z) : Z :=
  if i <? 0 then Z.max 0 (len + i) else Z.min i len.

(** [s[a:b]] *)
Definition slice (s : string) (a b : Z) : string :=
  let len := Z.of_nat (String.length s) in
  let a' := slice_bound len a in
  let b' := slice_bound len b in
  if a' <? b' then String.substring (Z.to_nat a') (Z.to_nat (b' - a')) s
  else EmptyString.

(** Truth value of a string: non-empty. *)
Definition truthy (s : string) : bool :=
  match s with EmptyString => false | String _ _ => true end.

End PyStr.

(** The double quote, for the literal [rel="next"]. *)
Definition dquote : ascii := Ascii.ascii_of_nat 34.

Definition rel_next : string :=
  String.append "rel=" (String dquote (String.append "next" (String dquote EmptyString))).

(** The [for link in link_header.split(',')] loop of [fetch_pipelines] and
    [fetch_pipeline_jobs] (lines 117-123 and 202-208): [next_url] stays [None]
    unless some piece contains [rel="next"]; the first such piece gives the
    URL between its first '<' and its first '>'. *)
Fixpoint first_next_link (links : list string) : option string :=
  match links with
  | [] => None
  | link :: links' =>
      if PyStr.contains rel_next link
      then Some (PyStr.slice link (PyStr.find "<"%char link + 1)
                                  (PyStr.find ">"%char link))
      else first_next_link links'
  end.

Definition next_url_of (link_header : string) : option string :=
  first_next_link (PyStr.split ","%char link_header).

(* ================================================================= *)
(** ** The HTTP world

    A response is what the script reads of it: the status code, the three
    integer headers it converts with [int(...)], the [Link] header and the
    decoded JSON body, a list of items.  Responses are taken well-formed for
    the GitLab API: the integer headers hold non-negative decimal integers
    (type [N]), the body is a JSON array of objects with the keys the script
    reads.  An absent header is [None]. *)

Record Response (A : Type) : Type := mkResponse {
  status_code : Z;
  hdr_ratelimit_remaining : option N;   (* RateLimit-Remaining *)
  hdr_ratelimit_reset : option N;       (* RateLimit-Reset *)
  hdr_retry_after : option N;           (* Retry-After *)
  hdr_link : option string;             (* Link *)
  json : list A                         (* response.json() *)
}.
Arguments mkResponse {A}.
Arguments status_code {A}.
Arguments hdr_ratelimit_remaining {A}.
Arguments hdr_ratelimit_reset {A}.
Arguments hdr_retry_after {A}.
Arguments hdr_link {A}.
Arguments json {A}.

(** [params] of [requests.get]: [None], or the query parameters. *)
Definition Params : Type := option (list (string * string)).

Record Request : Type := mkRequest {
  req_url : string;
  req_params : Params
}.

(** The exceptions of the fetch layer, all of class
    [requests.RequestException]:
    - what [requests.get] itself raises (connection errors, timeouts), with
      its message;
    - the [HTTPError] of [response.raise_for_status()];
    - [RequestException("Max retries exceeded")] of line 176. *)
Inductive RequestException : Type :=
| NetworkError (msg : string)
| HTTPError (status : Z)
| MaxRetriesExceeded.

(** One call of [requests.get]: a response, or an exception raised. *)
Inductive GetOutcome (A : Type) : Type :=
| Responded (r : Response A)
| Raised (msg : string).
Arguments Responded {A}.
Arguments Raised {A}.

(** The remote server as the client sees it: the outcome of the [k]-th call
    of [requests.get] (counted from 0), given the request made. *)
Definition Server (A : Type) : Type := nat -> Request -> GetOutcome A.

(** The client's state: how many requests it has sent, the durations passed
    to [time.sleep] so far (oldest first), and the two rate-limit globals. *)
Record Client : Type := mkClient {
  requests_sent : nat;
  slept : list Z;
  rate_limit_remaining : option Z;
  rate_limit_reset : option Z
}.

Definition new_client : Client := mkClient 0 [] None None.

(** A computation that returns a value or raises. *)
Inductive Exc (A : Type) : Type :=
| Return (a : A)
| Raise (e : RequestException).
Arguments Return {A}.
Arguments Raise {A}.

(* ================================================================= *)
(** ** The resilient fetcher *)

Module Fetcher.

Definition RETRY_ATTEMPTS : nat := 3.
Definition RETRY_BACKOFF : Z := 2.

Definition count_request (c : Client) : Client :=
  mkClient (S (requests_sent c)) (slept c)
           (rate_limit_remaining c) (rate_limit_reset c).

(** [time.sleep(seconds)] *)
Definition time_sleep (seconds : Z) (c : Client) : Client :=
  mkClient (requests_sent c) (slept c ++ [seconds])
           (rate_limit_remaining c) (rate_limit_reset c).

(** [update_rate_limit_info] (lines 130-143); the warning below 100 is a log
    line only. *)
Definition update_rate_limit_info {A} (response : Response A) (c : Client)
  : Client :=
  let c1 :=
    match hdr_ratelimit_remaining response with
    | Some n => mkClient (requests_sent c) (slept c)
                         (Some (Z.of_N n)) (rate_limit_reset c)
    | None => c
    end in
  match hdr_ratelimit_reset response with
  | Some n => mkClient (requests_sent c1) (slept c1)
                       (rate_limit_remaining c1) (Some (Z.of_N n))
  | None => c1
  end.

(** [response.raise_for_status()]: an [HTTPError] for the client-error and
    server-error classes, nothing otherwise. *)
Definition raise_for_status {A} (response : Response A)
  : option RequestException :=
  if (400 <=? status_code response) && (status_code response <? 600)
  then Some (HTTPError (status_code response))
  else None.

(** [int(response.headers.get('Retry-After', 60))] *)
Definition retry_after_seconds {A} (response : Response A) : Z :=
  match hdr_retry_after response with
  | Some n => Z.of_N n
  | None => 60
  end.

Section Retry.

Context {A : Type}.
(** The two tuning constants, [RETRY_ATTEMPTS] and [RETRY_BACKOFF]. *)
Variable attempts : nat.
Variable backoff : Z.
Variable srv : Server A.
Variable req : Request.

(** The body of [for attempt in range(RETRY_ATTEMPTS)] (lines 150-176), over
    the attempts still to run.  Every iteration calls [requests.get] once.
    - status 429: sleep for [Retry-After], then [continue];
    - [raise_for_status] passes: return the response;
    - a [RequestException] (from [requests.get] or [raise_for_status]): sleep
      [RETRY_BACKOFF ** attempt] and go on when
      [attempt < RETRY_ATTEMPTS - 1], re-raise otherwise;
    - the range exhausted: raise "Max retries exceeded". *)
Fixpoint for_attempt (range : list nat) (c : Client)
  : Exc (Response A) * Client :=
  match range with
  | [] => (Raise MaxRetriesExceeded, c)
  | attempt :: range' =>
      let on_exception (e : RequestException) (c' : Client) :=
        if Z.of_nat attempt <? Z.of_nat attempts - 1
        then for_attempt range' (time_sleep (backoff ^ Z.of_nat attempt) c')
        else (Raise e, c') in
      match srv (requests_sent c) req with
      | Raised msg => on_exception (NetworkError msg) (count_request c)
      | Responded response =>
          let c1 := update_rate_limit_info response (count_request c) in
          if status_code response =? 429
          then for_attempt range' (time_sleep (retry_after_seconds response) c1)
          else match raise_for_status response with
               | Some e => on_exception e c1
               | None => (Return response, c1)
               end
      end
  end.

Definition request_with_retry (c : Client) : Exc (Response A) * Client :=
  for_attempt (seq 0 attempts) c.

End Retry.

(** [make_api_request_with_retry(url, params)] *)
Definition make_api_request_with_retry {A} (srv : Server A) (req : Request)
  (c : Client) : Exc (Response A) * Client :=
  request_with_retry RETRY_ATTEMPTS RETRY_BACKOFF srv req c.

End Fetcher.

(* ================================================================= *)
(** ** Pipelines, jobs and the paginated collections *)

(** A pipeline as the script reads it: [pipeline['id']] and
    [pipeline.get('ref', ...)], the key [ref] possibly absent. *)
Record Pipeline : Type := mkPipeline {
  pl_id : Z;
  pl_ref : option string
}.

(** A job execution: [job['id']], [job['name']], [job['status']]. *)
Record Job : Type := mkJob {
  job_id : Z;
  job_name : string;
  job_status : string
}.

(** What [fetch_pipeline_jobs_with_metadata] returns.  [error] is [str(e)]
    in the script; the exception itself is kept here. *)
Record PipelineResult : Type := mkResult {
  pipeline_id : Z;
  pipeline : Pipeline;
  jobs : list Job;
  success : bool;
  error : option RequestException
}.

Module Paginator.

Import Fetcher.

Definition GITLAB_URL : string := "https://gitlab.com".

(** [str(n)] of an integer. *)
Definition str_of_int (n : Z) : string := NilZero.string_of_int (Z.to_int n).

Definition concat_str (pieces : list string) : string :=
  fold_right String.append EmptyString pieces.

(** The loop [while url:] of [fetch_pipelines] (lines 107-128) and of
    [fetch_pipeline_jobs] (lines 192-213), the same text in both.  [url] is
    [None] or a string, [items] the list accumulated so far.  One unit of
    [fuel] pays for one iteration; [None] is a loop still running when the
    fuel is spent.  An exception of the fetcher leaves the function. *)
Fixpoint page_loop {A} (fuel : nat) (srv : Server A) (url : option string)
  (params : Params) (items : list A) (c : Client)
  : option (Exc (list A) * Client) :=
  match url with
  | None => Some (Return items, c)
  | Some u =>
      if negb (PyStr.truthy u) then Some (Return items, c)
      else
        match fuel with
        | O => None
        | S fuel' =>
            match make_api_request_with_retry srv (mkRequest u params) c with
            | (Raise e, c') => Some (Raise e, c')
            | (Return response, c') =>
                match json response with
                | [] => Some (Return items, c')              (* if not data: break *)
                | data =>
                    let link_header :=
                      match hdr_link response with
                      | Some h => h
                      | None => EmptyString
                      end in
                    page_loop fuel' srv (next_url_of link_header) None
                              (items ++ data) c'
                end
            end
        end
  end.

(** [fetch_pipelines(project_id)]; [days_ago_iso] is the module-level
    timestamp computed when the script starts. *)
Definition fetch_pipelines (fuel : nat) (srv : Server Pipeline)
  (days_ago_iso project_id : string) (c : Client)
  : option (Exc (list Pipeline) * Client) :=
  let url := concat_str [GITLAB_URL; "/api/v4/projects/"; project_id;
                         "/pipelines"] in
  let params := Some [("updated_after", days_ago_iso); ("per_page", "100")] in
  page_loop fuel srv (Some url) params [] c.

(** [fetch_pipeline_jobs(project_id, pipeline_id, include_retried)] *)
Definition fetch_pipeline_jobs (fuel : nat) (srv : Server Job)
  (project_id : string) (pipeline_id : Z) (include_retried : bool) (c : Client)
  : option (Exc (list Job) * Client) :=
  let url := concat_str [GITLAB_URL; "/api/v4/projects/"; project_id;
                         "/pipelines/"; str_of_int pipeline_id; "/jobs"] in
  let params :=
    Some ([("per_page", "100")] ++
          (if include_retried then [("include_retried", "true")] else [])) in
  page_loop fuel srv (Some url) params [] c.

(** [fetch_pipeline_jobs_with_metadata(project_id, pipeline)] (lines
    229-251): the job list, or the [RequestException] caught. *)
Definition fetch_pipeline_jobs_with_metadata (fuel : nat) (srv : Server Job)
  (project_id : string) (pipeline : Pipeline) (c : Client)
  : option (PipelineResult * Client) :=
  let pipeline_id := pl_id pipeline in
  match fetch_pipeline_jobs fuel srv project_id pipeline_id true c with
  | None => None
  | Some (Return jobs, c') =>
      Some (mkResult pipeline_id pipeline jobs true None, c')
  | Some (Raise e, c') =>
      Some (mkResult pipeline_id pipeline [] false (Some e), c')
  end.

End Paginator.

(* ================================================================= *)
(** ** The reduction phase: grouping, classification, statistics *)

Module Analysis.

(** A Python [dict] with string keys, in insertion order. *)
Definition Dict (V : Type) : Type := list (string * V).

(** [d[key]] on a [defaultdict]: the value stored, the default otherwise. *)
Fixpoint dict_get {V} (default : V) (key : string) (d : Dict V) : V :=
  match d with
  | [] => default
  | (k, v) :: d' => if String.eqb k key then v else dict_get default key d'
  end.

(** [d[key] = f(d[key])] on a [defaultdict] ([d[key].append(x)],
    [d[key][field] += n]): the entry is updated where it stands; a missing
    key is first inserted, at the end, with the default. *)
Fixpoint dict_update {V} (default : V) (key : string) (f : V -> V) (d : Dict V)
  : Dict V :=
  match d with
  | [] => [(key, f default)]
  | (k, v) :: d' =>
      if String.eqb k key then (k, f v) :: d'
      else (k, v) :: dict_update default key f d'
  end.

(** [list.sort(key=...)] and [sorted]: a stable sort, written as a stable
    insertion sort ([x] goes before the first element it is not above). *)
Fixpoint insert_sorted {A} (le : A -> A -> bool) (x : A) (l : list A) : list A :=
  match l with
  | [] => [x]
  | y :: l' => if le x y then x :: y :: l' else y :: insert_sorted le x l'
  end.

Definition stable_sort {A} (le : A -> A -> bool) (l : list A) : list A :=
  fold_right (insert_sorted le) [] l.

(** [job_list.sort(key=lambda x: x['id'])] (line 324) *)
Definition sort_by_id (job_list : list Job) : list Job :=
  stable_sort (fun a b => job_id a <=? job_id b) job_list.

(** The value of one entry of [job_stats] (lines 264-274). *)
Record JobStats : Type := mkStats {
  total_job_groups : Z;
  flakey_occurrences : Z;
  legitimate_failures : Z;
  clean_successes : Z;
  other_statuses : Z;
  total_retry_attempts : Z;
  flakey_retry_attempts : Z;
  legitimate_retry_attempts : Z;
  flakey_pipelines : list Z
}.

Definition default_stats : JobStats := mkStats 0 0 0 0 0 0 0 0 [].

(** The updates [stats[field] += n] and [stats['flakey_pipelines'].append]. *)
Definition add_total_job_groups (n : Z) (s : JobStats) : JobStats :=
  mkStats (total_job_groups s + n) (flakey_occurrences s)
    (legitimate_failures s) (clean_successes s) (other_statuses s)
    (total_retry_attempts s) (flakey_retry_attempts s)
    (legitimate_retry_attempts s) (flakey_pipelines s).

Definition add_flakey_occurrences (n : Z) (s : JobStats) : JobStats :=
  mkStats (total_job_groups s) (flakey_occurrences s + n)
    (legitimate_failures s) (clean_successes s) (other_statuses s)
    (total_retry_attempts s) (flakey_retry_attempts s)
    (legitimate_retry_attempts s) (flakey_pipelines s).

Definition add_legitimate_failures (n : Z) (s : JobStats) : JobStats :=
  mkStats (total_job_groups s) (flakey_occurrences s)
    (legitimate_failures s + n) (clean_successes s) (other_statuses s)
    (total_retry_attempts s) (flakey_retry_attempts s)
    (legitimate_retry_attempts s) (flakey_pipelines s).

Definition add_clean_successes (n : Z) (s : JobStats) : JobStats :=
  mkStats (total_job_groups s) (flakey_occurrences s)
    (legitimate_failures s) (clean_successes s + n) (other_statuses s)
    (total_retry_attempts s) (flakey_retry_attempts s)
    (legitimate_retry_attempts s) (flakey_pipelines s).

Definition add_other_statuses (n : Z) (s : JobStats) : JobStats :=
  mkStats (total_job_groups s) (flakey_occurrences s)
    (legitimate_failures s) (clean_successes s) (other_statuses s + n)
    (total_retry_attempts s) (flakey_retry_attempts s)
    (legitimate_retry_attempts s) (flakey_pipelines s).

Definition add_total_retry_attempts (n : Z) (s : JobStats) : JobStats :=
  mkStats (total_job_groups s) (flakey_occurrences s)
    (legitimate_failures s) (clean_successes s) (other_statuses s)
    (total_retry_attempts s + n) (flakey_retry_attempts s)
    (legitimate_retry_attempts s) (flakey_pipelines s).

Definition add_flakey_retry_attempts (n : Z) (s : JobStats) : JobStats :=
  mkStats (total_job_groups s) (flakey_occurrences s)
    (legitimate_failures s) (clean_successes s) (other_statuses s)
    (total_retry_attempts s) (flakey_retry_attempts s + n)
    (legitimate_retry_attempts s) (flakey_pipelines s).

Definition add_legitimate_retry_attempts (n : Z) (s : JobStats) : JobStats :=
  mkStats (total_job_groups s) (flakey_occurrences s)
    (legitimate_failures s) (clean_successes s) (other_statuses s)
    (total_retry_attempts s) (flakey_retry_attempts s)
    (legitimate_retry_attempts s + n) (flakey_pipelines s).

Definition append_flakey_pipeline (pipeline_id : Z) (s : JobStats) : JobStats :=
  mkStats (total_job_groups s) (flakey_occurrences s)
    (legitimate_failures s) (clean_successes s) (other_statuses s)
    (total_retry_attempts s) (flakey_retry_attempts s)
    (legitimate_retry_attempts s) (flakey_pipelines s ++ [pipeline_id]).

(** One element of [flakey_details] (lines 354-360). *)
Record FlakeyDetail : Type := mkDetail {
  fd_pipeline_id : Z;
  fd_pipeline_ref : string;
  fd_job_name : string;
  fd_num_attempts : Z;
  fd_statuses : list string
}.

(** The state of the reduction: [job_stats], [flakey_details], and the
    pipelines reported through [logging.error] at line 309 with the error
    of each (the one log line kept in this model). *)
Record State : Type := mkState {
  job_stats : Dict JobStats;
  flakey_details : list FlakeyDetail;
  logged_errors : list (Z * option RequestException)
}.

Definition initial : State := mkState [] [] [].

(** [job_stats[job_name] ... ] updated through [f]. *)
Definition update_stats (job_name : string) (f : JobStats -> JobStats)
  (st : State) : State :=
  mkState (dict_update default_stats job_name f (job_stats st))
          (flakey_details st) (logged_errors st).

Definition append_detail (d : FlakeyDetail) (st : State) : State :=
  mkState (job_stats st) (flakey_details st ++ [d]) (logged_errors st).

Definition log_error (pipeline_id : Z) (e : option RequestException)
  (st : State) : State :=
  mkState (job_stats st) (flakey_details st)
          (logged_errors st ++ [(pipeline_id, e)]).

(** The four outcomes the branches of lines 344-382 count. *)
Inductive Verdict : Type := CleanSuccess | Flaky | LegitimateFailure | Other.

(** [x in statuses] *)
Definition status_in (x : string) (statuses : list string) : bool :=
  existsb (String.eqb x) statuses.

(** [pipeline.get('ref', 'unknown')] *)
Definition pipeline_ref (p : Pipeline) : string :=
  match pl_ref p with
  | Some r => r
  | None => "unknown"
  end.

(** [num_attempts == 1 and job_list[0]['status'] == 'success'] (line 344);
    [job_list[0]] is read only when [num_attempts == 1]. *)
Definition first_try_success (job_list : list Job) : bool :=
  (Z.of_nat (List.length job_list) =? 1) &&
  match job_list with
  | j :: _ => String.eqb (job_status j) "success"
  | [] => false
  end.

(** The branch the [if]/[elif] chain of lines 344-382 takes on a sorted
    [job_list], named by the counter the branch increments: the first and
    the fifth branch count a clean success, the fourth and the last an
    other status. *)
Definition verdict (job_list : list Job) : Verdict :=
  let statuses := map job_status job_list in
  let num_attempts := Z.of_nat (List.length job_list) in
  let has_success := status_in "success" statuses in
  let has_failure := status_in "failed" statuses in
  let only_other_statuses := negb has_success && negb has_failure in
  if first_try_success job_list
  then CleanSuccess
  else if has_failure && has_success then Flaky
  else if has_failure && negb has_success then LegitimateFailure
  else if only_other_statuses then Other
  else if has_success && negb has_failure && (num_attempts >? 1)
  then CleanSuccess
  else Other.

(** The body of [for job_name, job_list in jobs_by_name.items()] (lines
    322-382) for one group. *)
Definition analyze_group (pipeline : Pipeline) (pipeline_id : Z)
  (job_name : string) (job_list0 : list Job) (st : State) : State :=
  let job_list := sort_by_id job_list0 in
  let statuses := map job_status job_list in
  let st1 := update_stats job_name (add_total_job_groups 1) st in
  let num_attempts := Z.of_nat (List.length job_list) in
  let retry_count := num_attempts - 1 in
  let st2 := update_stats job_name (add_total_retry_attempts retry_count) st1 in
  match verdict job_list with
  | CleanSuccess =>
      update_stats job_name (add_clean_successes 1) st2
  | Flaky =>
      let st3 := update_stats job_name (add_flakey_occurrences 1) st2 in
      let st4 :=
        update_stats job_name (add_flakey_retry_attempts retry_count) st3 in
      let st5 := update_stats job_name (append_flakey_pipeline pipeline_id) st4 in
      append_detail
        (mkDetail pipeline_id (pipeline_ref pipeline) job_name num_attempts
                  statuses) st5
  | LegitimateFailure =>
      let st3 := update_stats job_name (add_legitimate_failures 1) st2 in
      update_stats job_name (add_legitimate_retry_attempts retry_count) st3
  | Other =>
      update_stats job_name (add_other_statuses 1) st2
  end.

(** [jobs_by_name] (lines 317-319) *)
Definition group_by_name (jobs : list Job) : Dict (list Job) :=
  fold_left
    (fun d job => dict_update [] (job_name job) (fun l => l ++ [job]) d)
    jobs [].

(** The body of [for result in pipeline_results] (lines 307-382). *)
Definition analyze_result (result : PipelineResult) (st : State) : State :=
  if negb (success result)
  then log_error (pipeline_id result) (error result) st
  else
    fold_left
      (fun st' group =>
         analyze_group (pipeline result) (pipeline_id result)
                       (fst group) (snd group) st')
      (group_by_name (jobs result)) st.

Definition analyze_results (pipeline_results : list PipelineResult) : State :=
  fold_left (fun st result => analyze_result result st) pipeline_results initial.

(** [return job_stats, flakey_details] (line 385) *)
Definition returned (st : State) : Dict JobStats * list FlakeyDetail :=
  (job_stats st, flakey_details st).

End Analysis.

(* ================================================================= *)
(** ** The totals and rates of the report *)

Module Report.

Import Analysis.

(** [sum(stats[field] for stats in job_stats.values())] *)
Definition sum_field (field : JobStats -> Z) (job_stats : Dict JobStats) : Z :=
  fold_left Z.add (map (fun item => field (snd item)) job_stats) 0.

(** Lines 404-408. *)
Definition total_job_groups (job_stats : Dict JobStats) : Z :=
  sum_field Analysis.total_job_groups job_stats.
Definition total_flakey (job_stats : Dict JobStats) : Z :=
  sum_field flakey_occurrences job_stats.
Definition total_legitimate (job_stats : Dict JobStats) : Z :=
  sum_field legitimate_failures job_stats.
Definition total_clean (job_stats : Dict JobStats) : Z :=
  sum_field clean_successes job_stats.
Definition total_other (job_stats : Dict JobStats) : Z :=
  sum_field other_statuses job_stats.

(** [sorted(job_stats.items())]: by job name (the keys of a dict differ, so
    the comparison of two items never reaches their values). *)
Definition sorted_items (job_stats : Dict JobStats) : Dict JobStats :=
  stable_sort (fun a b => String.leb (fst a) (fst b)) job_stats.

(** Lines 498-509: the three accumulators of the loop over the sorted
    items. *)
Definition accumulate (field : JobStats -> Z) (job_stats : Dict JobStats) : Z :=
  fold_left (fun total item => total + field (snd item))
            (sorted_items job_stats) 0.

Definition total_all_retries (job_stats : Dict JobStats) : Z :=
  accumulate total_retry_attempts job_stats.
Definition total_flakey_retries (job_stats : Dict JobStats) : Z :=
  accumulate flakey_retry_attempts job_stats.
Definition total_legit_retries (job_stats : Dict JobStats) : Z :=
  accumulate legitimate_retry_attempts job_stats.

(** Lines 418-427.  The script computes the two rates in floating point from
    the integer totals; the exact quotient is kept here.  They exist only
    when [total_job_groups > 0] (with no group at all the report stops
    earlier, on the division of line 413). *)
Definition flakiness_rate (job_stats : Dict JobStats) : option Q :=
  if total_job_groups job_stats >? 0
  then Some (inject_Z (total_flakey job_stats)
             / inject_Z (total_job_groups job_stats) * inject_Z 100)%Q
  else None.

Definition reliability_rate (job_stats : Dict JobStats) : option Q :=
  if total_job_groups job_stats >? 0
  then
    let non_legitimate_total := total_clean job_stats + total_flakey job_stats in
    if non_legitimate_total >? 0
    then Some (inject_Z (total_clean job_stats)
               / inject_Z non_legitimate_total * inject_Z 100)%Q
    else Some (inject_Z 100)
  else None.

End Report.

(* ================================================================= *)
(** ** The concurrent fan-out

    [analyze_flakiness_vs_legitimate_failures] submits one task per pipeline
    to a pool of [MAX_WORKERS] threads and appends the results in the order
    [as_completed] yields the futures.  The tasks share no state that
    decides a result (the rate-limit globals are only written and logged),
    so each task is run here against its own view of the server, [env i] for
    the [i]-th pipeline submitted, from a fresh client state; the order of
    completion is a parameter, a list of task indices. *)

Module Dispatcher.

Import Paginator Analysis.

Definition MAX_WORKERS : nat := 8.

(** The task [executor.submit(fetch_pipeline_jobs_with_metadata, project_id,
    pipeline)] of the [i]-th pipeline, and the value it returns ([None]: a
    task that has not finished on its fuel). *)
Definition run_task (fuel : nat) (env : nat -> Server Job)
  (project_id : string) (i : nat) (pipeline : Pipeline)
  : option PipelineResult :=
  option_map fst
    (fetch_pipeline_jobs_with_metadata fuel (env i) project_id pipeline
       new_client).

(** The futures of lines 290-293, in submission order. *)
Definition submit_all (fuel : nat) (env : nat -> Server Job)
  (project_id : string) (pipelines : list Pipeline)
  : list (option PipelineResult) :=
  map (fun task => run_task fuel env project_id (fst task) (snd task))
      (combine (seq 0 (List.length pipelines)) pipelines).

(** Lines 296-298: [pipeline_results] after the loop over
    [as_completed(future_to_pipeline)], the futures completing in [order]. *)
Fixpoint drain (futures : list (option PipelineResult)) (order : list nat)
  : option (list PipelineResult) :=
  match order with
  | [] => Some []
  | i :: order' =>
      match nth_error futures i with
      | Some (Some result) => option_map (cons result) (drain futures order')
      | _ => None
      end
  end.

Definition pipeline_results (fuel : nat) (env : nat -> Server Job)
  (order : list nat) (project_id : string) (pipelines : list Pipeline)
  : option (list PipelineResult) :=
  drain (submit_all fuel env project_id pipelines) order.

(** [analyze_flakiness_vs_legitimate_failures(project_id, pipelines)] *)
Definition analyze_flakiness_vs_legitimate_failures (fuel : nat)
  (env : nat -> Server Job) (order : list nat) (project_id : string)
  (pipelines : list Pipeline)
  : option (Dict JobStats * list FlakeyDetail) :=
  option_map (fun results => returned (analyze_results results))
             (pipeline_results fuel env order project_id pipelines).

End Dispatcher.

(* ================================================================= *)
(** ** The counters of a statistics entry

    The eight integer counters of a [job_stats] entry, apart from the list
    [flakey_pipelines]; the same record holds the eight global totals of
    the report. *)

Module Counting.

Import Analysis.

Record Counts : Type := mkCounts {
  n_groups : Z;
  n_flakey : Z;
  n_legitimate : Z;
  n_clean : Z;
  n_other : Z;
  n_retries : Z;
  n_flakey_retries : Z;
  n_legitimate_retries : Z
}.

Definition counts_zero : Counts := mkCounts 0 0 0 0 0 0 0 0.

Definition counts_add (a b : Counts) : Counts :=
  mkCounts (n_groups a + n_groups b) (n_flakey a + n_flakey b)
    (n_legitimate a + n_legitimate b) (n_clean a + n_clean b)
    (n_other a + n_other b) (n_retries a + n_retries b)
    (n_flakey_retries a + n_flakey_retries b)
    (n_legitimate_retries a + n_legitimate_retries b).

Definition counts_of (s : JobStats) : Counts :=
  mkCounts (total_job_groups s) (flakey_occurrences s) (legitimate_failures s)
    (clean_successes s) (other_statuses s) (total_retry_attempts s)
    (flakey_retry_attempts s) (legitimate_retry_attempts s).

(** The counters [job_stats] holds for a job name (all zero for a name it
    does not hold). *)
Definition counts_at (name : string) (job_stats : Dict JobStats) : Counts :=
  counts_of (dict_get default_stats name job_stats).

(** The eight totals of the report. *)
Definition totals (job_stats : Dict JobStats) : Counts :=
  mkCounts (Report.total_job_groups job_stats) (Report.total_flakey job_stats)
    (Report.total_legitimate job_stats) (Report.total_clean job_stats)
    (Report.total_other job_stats) (Report.total_all_retries job_stats)
    (Report.total_flakey_retries job_stats)
    (Report.total_legit_retries job_stats).

(** What one group of [n] executions adds to the counters of its name. *)
Definition group_counts (v : Verdict) (n : Z) : Counts :=
  match v with
  | CleanSuccess => mkCounts 1 0 0 1 0 (n - 1) 0 0
  | Flaky => mkCounts 1 1 0 0 0 (n - 1) (n - 1) 0
  | LegitimateFailure => mkCounts 1 0 1 0 0 (n - 1) 0 (n - 1)
  | Other => mkCounts 1 0 0 0 1 (n - 1) 0 0
  end.

(** What [analyze_group] does to the state, by verdict: one update of the
    entry of [job_name], and for a flaky group one more record. *)
Definition entry_update (v : Verdict) (pipeline_id n : Z) (s : JobStats)
  : JobStats :=
  match v with
  | CleanSuccess =>
      add_clean_successes 1
        (add_total_retry_attempts (n - 1) (add_total_job_groups 1 s))
  | Flaky =>
      append_flakey_pipeline pipeline_id
        (add_flakey_retry_attempts (n - 1)
           (add_flakey_occurrences 1
              (add_total_retry_attempts (n - 1) (add_total_job_groups 1 s))))
  | LegitimateFailure =>
      add_legitimate_retry_attempts (n - 1)
        (add_legitimate_failures 1
           (add_total_retry_attempts (n - 1) (add_total_job_groups 1 s)))
  | Other =>
      add_other_statuses 1
        (add_total_retry_attempts (n - 1) (add_total_job_groups 1 s))
  end.

(** Sums of counters and of integers, for the statements below. *)
Definition counts_sum (l : list Counts) : Counts :=
  fold_right counts_add counts_zero l.

Definition zsum (l : list Z) : Z := fold_right Z.add 0 l.

(** What the groups of one pipeline result add, [delta name job_list] being
    what one group adds. *)
Definition result_delta (delta : string -> list Job -> Counts)
  (result : PipelineResult) : Counts :=
  if success result
  then counts_sum (map (fun group => delta (fst group) (snd group))
                       (group_by_name (jobs result)))
  else counts_zero.

End Counting.

(* ================================================================= *)
(** ** Outcomes of one attempt, for the statements about the fetcher *)

Module Attempt.

Import Fetcher.

(** The client state once [requests.get] has answered and, on a response,
    [update_rate_limit_info] has run. *)
Definition after_get {A} (o : GetOutcome A) (c : Client) : Client :=
  match o with
  | Raised _ => count_request c
  | Responded response => update_rate_limit_info response (count_request c)
  end.

(** The [RequestException] an attempt ends with, if any: the one
    [requests.get] raised, or the [HTTPError] of [raise_for_status] on a
    response other than 429. *)
Definition exception_of {A} (o : GetOutcome A) : option RequestException :=
  match o with
  | Raised msg => Some (NetworkError msg)
  | Responded response =>
      if status_code response =? 429 then None else raise_for_status response
  end.

(** The classes of the specification: a transient failure is a network
    error or a 5xx status; a client error is a 4xx status other than 429; a
    success is a 2xx status. *)
Definition transient_failure {A} (o : GetOutcome A) : bool :=
  match o with
  | Raised _ => true
  | Responded response =>
      (500 <=? status_code response) && (status_code response <? 600)
  end.

Definition client_error {A} (o : GetOutcome A) : bool :=
  match o with
  | Raised _ => false
  | Responded response =>
      (400 <=? status_code response) && (status_code response <? 500)
      && negb (status_code response =? 429)
  end.

Definition successful {A} (response : Response A) : bool :=
  (200 <=? status_code response) && (status_code response <? 300).

(** A 4xx response other than 429 is surfaced immediately: the fetch ends
    with an exception right after its first request. *)
Definition surfaced_immediately {A} (srv : Server A) (req : Request)
  (c : Client) : Prop :=
  exists e,
    make_api_request_with_retry srv req c
    = (Raise e, after_get (srv (requests_sent c) req) c).

End Attempt.

(* ================================================================= *)
(** ** Concrete data

    The scenario of the specification: pipeline 101 runs "unit-tests" three
    times (failed, failed, success), pipeline 102 runs "lint" once (failed);
    the collection of pipeline 103 fails. *)

Module Examples.

Definition pipeline_101 : Pipeline := mkPipeline 101 (Some "main").
Definition pipeline_102 : Pipeline := mkPipeline 102 None.
Definition pipeline_103 : Pipeline := mkPipeline 103 (Some "main").

(** The jobs of pipeline 101 as the API lists them, newest first. *)
Definition jobs_101 : list Job :=
  [mkJob 13 "unit-tests" "success"; mkJob 12 "unit-tests" "failed";
   mkJob 11 "unit-tests" "failed"].

Definition jobs_102 : list Job := [mkJob 21 "lint" "failed"].

Definition result_101 : PipelineResult :=
  mkResult 101 pipeline_101 jobs_101 true None.
Definition result_102 : PipelineResult :=
  mkResult 102 pipeline_102 jobs_102 true None.
Definition result_103 : PipelineResult :=
  mkResult 103 pipeline_103 [] false (Some (HTTPError 404)).

(** Responses with a given status and [Retry-After] header, and a page of
    jobs with a given [Link] header. *)
Definition status_response (status : Z) (retry_after : option N)
  : Response Job :=
  mkResponse status None None retry_after None [].

Definition page (items : list Job) (link : option string) : Response Job :=
  mkResponse 200 None None None link items.

Definition link_to (url : string) : string :=
  String.append "<" (String.append url (String.append ">; " rel_next)).

Definition some_request : Request := mkRequest "https://gitlab.com/x" None.

(** Three answers 429 with [Retry-After: 5], then a page. *)
Definition server_429_thrice : Server Job :=
  fun k _ =>
    match k with
    | 0%nat | 1%nat | 2%nat => Responded (status_response 429 (Some 5%N))
    | _ => Responded (page jobs_102 None)
    end.

(** One answer 404, then a page. *)
Definition server_404_once : Server Job :=
  fun k _ =>
    match k with
    | 0%nat => Responded (status_response 404 None)
    | _ => Responded (page jobs_102 None)
    end.

(** A timeout, a 503, then a page. *)
Definition server_two_failures : Server Job :=
  fun k _ =>
    match k with
    | 0%nat => Raised "timed out"
    | 1%nat => Responded (status_response 503 None)
    | _ => Responded (page jobs_102 None)
    end.

(** Always 404. *)
Definition server_404 : Server Job :=
  fun _ _ => Responded (status_response 404 None).

(** Three pages: one job and a next link, an empty page with a next link,
    one more job. *)
Definition url_101 : string :=
  "https://gitlab.com/api/v4/projects/64459882/pipelines/101/jobs".

Definition server_empty_middle_page : Server Job :=
  fun _ req =>
    if String.eqb (req_url req) url_101
    then Responded (page [mkJob 12 "unit-tests" "failed"]
                         (Some (link_to "https://gitlab.com/page2")))
    else if String.eqb (req_url req) "https://gitlab.com/page2"
    then Responded (page [] (Some (link_to "https://gitlab.com/page3")))
    else Responded (page [mkJob 13 "unit-tests" "success"] None).

(** All the jobs of pipeline 101 on one page. *)
Definition server_101 : Server Job :=
  fun _ _ => Responded (page jobs_101 None).

(** A batch of two pipelines: the collection of 101 succeeds, every request
    of the collection of 103 is answered 404. *)
Definition batch : list Pipeline := [pipeline_101; pipeline_103].

Definition batch_env : nat -> Server Job :=
  fun i => match i with 0%nat => server_101 | _ => server_404 end.

End Examples.

(* ================================================================= *)
(** ** File names

    [sanitize_filename] (lines 85-93).  A character is its code point, up
    to U+00FF (the type [ascii]); the two classes below are those of
    Python's [re] on [str] patterns for these code points. *)

Module Sanitize.

Definition code_in (lo hi : nat) (c : ascii) : bool :=
  (lo <=? nat_of_ascii c)%nat && (nat_of_ascii c <=? hi)%nat.

(** [\w]: the alphanumeric characters and the underscore. *)
Definition is_word (c : ascii) : bool :=
  code_in 48 57 c || code_in 65 90 c || code_in 95 95 c || code_in 97 122 c
  || code_in 170 170 c || code_in 178 179 c || code_in 181 181 c
  || code_in 185 186 c || code_in 188 190 c || code_in 192 214 c
  || code_in 216 246 c || code_in 248 255 c.

(** [\s]: the whitespace characters. *)
Definition is_space (c : ascii) : bool :=
  code_in 9 13 c || code_in 28 32 c || code_in 133 133 c || code_in 160 160 c.

(** A character the class [[^\w\s\-_]] does not match. *)
Definition kept (c : ascii) : bool :=
  is_word c || is_space c || Ascii.eqb c "-"%char || Ascii.eqb c "_"%char.

(** [re.sub(r'[^\w\s\-_]', '', name)] *)
Fixpoint remove_unwanted (name : string) : string :=
  match name with
  | EmptyString => EmptyString
  | String c rest =>
      if kept c then String c (remove_unwanted rest) else remove_unwanted rest
  end.

(** [s.replace(' ', '_')] *)
Fixpoint replace_spaces (s : string) : string :=
  match s with
  | EmptyString => EmptyString
  | String c rest =>
      String (if Ascii.eqb c " "%char then "_"%char else c) (replace_spaces rest)
  end.

Definition sanitize_filename (name : string) : string :=
  replace_spaces (remove_unwanted name).

(** Every character of [s] satisfies [p]. *)
Fixpoint all_chars (p : ascii -> bool) (s : string) : bool :=
  match s with
  | EmptyString => true
  | String c rest => p c && all_chars p rest
  end.

(** The characters a sanitized name is made of: word characters, the
    hyphen, and whitespace other than the space. *)
Definition filename_char (c : ascii) : bool :=
  is_word c || Ascii.eqb c "-"%char
  || (is_space c && negb (Ascii.eqb c " "%char)).

End Sanitize.

(* ================================================================= *)
(** ** The six branches of the classifier

    The [if]/[elif] chain of lines 344-382 once more, this time naming the
    branch taken rather than the counter it increments. *)

Module Branches.

Import Analysis.

Inductive Branch : Type :=
| FirstTrySuccess        (* line 344 *)
| FailedThenSucceeded    (* line 349 *)
| AllAttemptsFailed      (* line 363 *)
| OnlyOtherStatuses      (* line 369 *)
| MultipleSuccesses      (* line 374 *)
| UnexpectedPattern.     (* line 379 *)

Definition branch_taken (job_list : list Job) : Branch :=
  let statuses := map job_status job_list in
  let num_attempts := Z.of_nat (List.length job_list) in
  let has_success := status_in "success" statuses in
  let has_failure := status_in "failed" statuses in
  let only_other_statuses := negb has_success && negb has_failure in
  if first_try_success job_list then FirstTrySuccess
  else if has_failure && has_success then FailedThenSucceeded
  else if has_failure && negb has_success then AllAttemptsFailed
  else if only_other_statuses then OnlyOtherStatuses
  else if has_success && negb has_failure && (num_attempts >? 1)
  then MultipleSuccesses
  else UnexpectedPattern.

(** The counter each branch increments. *)
Definition counted_as (b : Branch) : Verdict :=
  match b with
  | FirstTrySuccess | MultipleSuccesses => CleanSuccess
  | FailedThenSucceeded => Flaky
  | AllAttemptsFailed => LegitimateFailure
  | OnlyOtherStatuses | UnexpectedPattern => Other
  end.

End Branches.

(* ================================================================= *)
(** ** The summary of the report

    Lines 412-416 of [write_flakiness_analysis_stats]: the four percentages
    of the overall summary, each [total / total_job_groups * 100].  They are
    computed before the test [total_job_groups > 0] of line 418, so with no
    group the division raises [ZeroDivisionError]: that is [None] here.
    Lines 450-468: the two percentages of a row of the job table. *)

Module Summary.

Import Analysis.

Definition percent (part whole : Z) : Q :=
  (inject_Z part / inject_Z whole * inject_Z 100)%Q.

Record Percentages : Type := mkPercentages {
  pct_clean : Q;
  pct_flakey : Q;
  pct_legitimate : Q;
  pct_other : Q
}.

Definition overall_summary (job_stats : Dict JobStats) : option Percentages :=
  let total_job_groups := Report.total_job_groups job_stats in
  if total_job_groups =? 0 then None
  else Some (mkPercentages
               (percent (Report.total_clean job_stats) total_job_groups)
               (percent (Report.total_flakey job_stats) total_job_groups)
               (percent (Report.total_legitimate job_stats) total_job_groups)
               (percent (Report.total_other job_stats) total_job_groups)).

(** [flakiness_pct] and [reliability_pct] of one row. *)
Definition flakiness_pct (stats : JobStats) : Q :=
  if total_job_groups stats >? 0
  then percent (flakey_occurrences stats) (total_job_groups stats)
  else 0%Q.

Definition reliability_pct (stats : JobStats) : Q :=
  if total_job_groups stats >? 0
  then
    let non_legitimate := clean_successes stats + flakey_occurrences stats in
    if non_legitimate >? 0
    then percent (clean_successes stats) non_legitimate
    else 0%Q
  else 0%Q.

End Summary.

(* ================================================================= *)
(** ** Page sequences

    A server that answers the successive requests of one paginated
    collection, each at the first attempt: the [k]-th request asks for
    [url] with [params], the answer is a 2xx page with items, and its
    [Link] header leads to the rest; [final] is the URL the last page
    leads to, if any. *)

Module Pages.

Import Fetcher Attempt.

Definition link_header {A} (response : Response A) : string :=
  match hdr_link response with
  | Some h => h
  | None => EmptyString
  end.

Fixpoint chain {A} (srv : Server A) (k : nat) (url : option string)
  (params : Params) (pages : list (Response A)) (final : option string)
  : Prop :=
  match pages with
  | [] => url = final
  | response :: rest =>
      exists u,
        url = Some u
        /\ PyStr.truthy u = true
        /\ srv k (mkRequest u params) = Responded response
        /\ successful response = true
        /\ json response <> []
        /\ chain srv (S k) (next_url_of (link_header response)) None rest final
  end.

(** The client after the pages have been received. *)
Definition received {A} (pages : list (Response A)) (c : Client) : Client :=
  fold_left (fun c' response => after_get (Responded response) c') pages c.

(** The parameters of the request that follows the pages. *)
Definition params_after {A} (params : Params) (pages : list (Response A))
  : Params :=
  match pages with
  | [] => params
  | _ :: _ => None
  end.

(** The first request of [fetch_pipeline_jobs]: its URL and parameters. *)
Definition jobs_url (project_id : string) (pipeline_id : Z) : string :=
  Paginator.concat_str
    [Paginator.GITLAB_URL; "/api/v4/projects/"; project_id; "/pipelines/";
     Paginator.str_of_int pipeline_id; "/jobs"].

Definition jobs_params (include_retried : bool) : Params :=
  Some ([("per_page", "100")] ++
        (if include_retried then [("include_retried", "true")] else [])).

(** [sep.join(pieces)] with a one-character separator. *)
Fixpoint join (sep : ascii) (pieces : list string) : string :=
  match pieces with
  | [] => EmptyString
  | [piece] => piece
  | piece :: rest => String.append piece (String sep (join sep rest))
  end.

End Pages.

(* ================================================================= *)
(** ** What the statistics mean

    The vocabulary of the statements about [job_stats] and
    [flakey_details]. *)

Module Invariants.

Import Analysis.

(** The jobs of a given name. *)
Definition same_name (name : string) (job : Job) : bool :=
  String.eqb (job_name job) name.

(** An entry whose counters agree with each other: every group is counted
    under exactly one verdict, a flaky group has at least one retry, the
    retries of flaky and failed groups are part of the total, and
    [flakey_pipelines] has one id per flaky group. *)
Definition coherent (s : JobStats) : Prop :=
  total_job_groups s
  = flakey_occurrences s + legitimate_failures s + clean_successes s
    + other_statuses s
  /\ 0 <= flakey_occurrences s /\ 0 <= legitimate_failures s
  /\ 0 <= clean_successes s /\ 0 <= other_statuses s
  /\ flakey_occurrences s <= flakey_retry_attempts s
  /\ 0 <= legitimate_retry_attempts s
  /\ flakey_retry_attempts s + legitimate_retry_attempts s
     <= total_retry_attempts s
  /\ Z.of_nat (List.length (flakey_pipelines s)) = flakey_occurrences s.

(** The record of the flaky group of [name] in the result [r]. *)
Definition detail_of (r : PipelineResult) (name : string) : FlakeyDetail :=
  let group := filter (same_name name) (jobs r) in
  mkDetail (pipeline_id r) (pipeline_ref (pipeline r)) name
           (Z.of_nat (List.length group))
           (map job_status (sort_by_id group)).

(** The job executions of the pipelines that were fetched. *)
Definition executions (results : list PipelineResult) : Z :=
  fold_right Z.add 0
    (map (fun r => if success r then Z.of_nat (List.length (jobs r)) else 0)
         results).

(** The fetched pipelines in which a job of the given name ran. *)
Definition pipelines_running (name : string) (results : list PipelineResult)
  : list PipelineResult :=
  filter (fun r => success r && existsb (same_name name) (jobs r)) results.

End Invariants.

(* ================================================================= *)
(** ** More concrete data *)

Module Cases.

Import Examples.

(** Two pages of jobs for pipeline 101. *)
Definition server_two_pages : Server Job :=
  fun _ req =>
    if String.eqb (req_url req) url_101
    then Responded (page [mkJob 12 "unit-tests" "failed"]
                         (Some (link_to "https://gitlab.com/page2")))
    else Responded (page [mkJob 13 "unit-tests" "success"] None).

(** A first page of jobs, then 500 for ever. *)
Definition server_page_then_500 : Server Job :=
  fun _ req =>
    if String.eqb (req_url req) url_101
    then Responded (page [mkJob 12 "unit-tests" "failed"]
                         (Some (link_to "https://gitlab.com/page2")))
    else Responded (status_response 500 None).

(** The links of a [Link] header as GitLab sends them. *)
Definition link_value (url rel : string) : string :=
  String.append " <"
    (String.append url
       (String.append ">; rel="
          (String dquote (String.append rel (String dquote EmptyString))))).

End Cases.

(* ================================================================= *)
(** ** Completion of the tasks

    [as_completed] yields every future once, in the order in which the
    tasks complete.  [finish i] is the time at which the task of the [i]-th
    pipeline completes; futures that complete at the same time come in
    submission order (every other order of theirs is the order of another
    [finish]).

    Whether a collection ends is up to the server: the loop [while url:]
    follows next links for as long as it is handed pages with items.  A
    server is [ranked] when each of its next links leads to a URL of lower
    rank, so that the pages of a collection run out. *)

Module Pool.

Import Paginator Analysis Pages.

(** The task indices in the order of completion. *)
Definition completion_order (finish : nat -> nat) (n : nat) : list nat :=
  stable_sort (fun i j => Nat.leb (finish i) (finish j)) (seq 0 n).

(** The place of [i] in [order]. *)
Fixpoint position (i : nat) (order : list nat) : nat :=
  match order with
  | [] => O
  | x :: rest => if Nat.eqb x i then O else S (position i rest)
  end.






(** Ascending order of a key. *)
Definition ascending {B} (key : B -> nat) (a b : B) : Prop :=
  (key a <= key b)%nat.

(** A server that answers every request with a page of one job and a next
    link. *)
Definition server_endless : Server Job :=
  fun _ _ => Responded (Examples.page [mkJob 1 "build" "success"]
                          (Some (Examples.link_to "https://gitlab.com/next"))).




End Pool.

(* ================================================================= *)
(** * Properties *)

Import Fetcher Paginator Analysis Counting.

(* ----------------------------------------------------------------- *)
(** ** Dictionaries *)

Section DictFacts.

Context {V : Type}.
Variable default : V.

Lemma dict_get_update_same (key : string) (f : V -> V) (d : Dict V) :
  dict_get default key (dict_update default key f d)
  = f (dict_get default key d).
Proof.
  induction d as [|[k v] d IH]; simpl.
  - now rewrite String.eqb_refl.
  - destruct (String.eqb k key) eqn:E; simpl; rewrite E; auto.
Qed.

Lemma dict_get_update_other (key key' : string) (f : V -> V) (d : Dict V) :
  key' <> key ->
  dict_get default key' (dict_update default key f d) = dict_get default key' d.
Proof.
  intros Hne.
  induction d as [|[k v] d IH]; simpl.
  - destruct (String.eqb key key') eqn:E; auto.
    apply String.eqb_eq in E. congruence.
  - destruct (String.eqb k key) eqn:E; simpl.
    + apply String.eqb_eq in E. subst k.
      destruct (String.eqb key key') eqn:E'; auto.
      apply String.eqb_eq in E'. congruence.
    + now rewrite IH.
Qed.

Lemma dict_update_fuse (key : string) (f g : V -> V) (d : Dict V) :
  dict_update default key f (dict_update default key g d)
  = dict_update default key (fun v => f (g v)) d.
Proof.
  induction d as [|[k v] d IH]; simpl.
  - now rewrite String.eqb_refl.
  - destruct (String.eqb k key) eqn:E; simpl; rewrite E; auto.
    now rewrite IH.
Qed.

End DictFacts.

Lemma update_stats_fuse (name : string) (f g : JobStats -> JobStats) (st : State) :
  update_stats name f (update_stats name g st)
  = update_stats name (fun s => f (g s)) st.
Proof.
  unfold update_stats; simpl. now rewrite dict_update_fuse.
Qed.

(* ----------------------------------------------------------------- *)
(** ** The stable sort *)

Section SortFacts.

Context {A : Type}.
Variable le : A -> A -> bool.

Lemma insert_sorted_perm (x : A) (l : list A) :
  Permutation (insert_sorted le x l) (x :: l).
Proof.
  induction l as [|y l IH]; simpl.
  - apply Permutation_refl.
  - destruct (le x y).
    + apply Permutation_refl.
    + eapply perm_trans; [apply perm_skip, IH | apply perm_swap].
Qed.

Lemma stable_sort_perm (l : list A) : Permutation (stable_sort le l) l.
Proof.
  induction l as [|x l IH]; simpl.
  - apply perm_nil.
  - eapply perm_trans; [apply insert_sorted_perm | now apply perm_skip].
Qed.

Lemma stable_sort_length (l : list A) :
  List.length (stable_sort le l) = List.length l.
Proof. apply Permutation_length, stable_sort_perm. Qed.

Lemma stable_sort_singleton (x : A) : stable_sort le [x] = [x].
Proof. reflexivity. Qed.

End SortFacts.

(** [sort_by_id] is the stable ascending sort: its result is ordered by id,
    and executions with the same id keep their order. *)
Lemma insert_by_id_sorted (x : Job) (l : list Job) :
  StronglySorted (fun a b => job_id a <= job_id b) l ->
  StronglySorted (fun a b => job_id a <= job_id b)
    (insert_sorted (fun a b => job_id a <=? job_id b) x l).
Proof.
  induction 1 as [|y l Hs IH Hy]; simpl.
  - repeat constructor.
  - destruct (job_id x <=? job_id y) eqn:E.
    + apply Z.leb_le in E. constructor.
      * now constructor.
      * constructor; [assumption|].
        rewrite Forall_forall in *. intros z Hz. specialize (Hy z Hz). lia.
    + apply Z.leb_gt in E. constructor; [assumption|].
      rewrite Forall_forall in *. intros z Hz.
      apply (Permutation_in _ (insert_sorted_perm _ x l)) in Hz.
      destruct Hz as [<- | Hz]; [lia | now apply Hy].
Qed.

Lemma sort_by_id_sorted (job_list : list Job) :
  StronglySorted (fun a b => job_id a <= job_id b) (sort_by_id job_list).
Proof.
  induction job_list as [|x l IH]; simpl.
  - constructor.
  - now apply insert_by_id_sorted.
Qed.

Lemma sort_by_id_stable (k : Z) (job_list : list Job) :
  filter (fun j => job_id j =? k) (sort_by_id job_list)
  = filter (fun j => job_id j =? k) job_list.
Proof.
  induction job_list as [|x l IH]; [reflexivity|].
  unfold sort_by_id in *. simpl. rewrite <- IH.
  generalize (stable_sort (fun a b => job_id a <=? job_id b) l) as s.
  induction s as [|y s IHs]; simpl; [reflexivity|].
  destruct (job_id x <=? job_id y) eqn:E; simpl; [reflexivity|].
  rewrite IHs. apply Z.leb_gt in E.
  destruct (job_id x =? k) eqn:Ex; [|reflexivity].
  apply Z.eqb_eq in Ex.
  destruct (job_id y =? k) eqn:Ey; [|reflexivity].
  apply Z.eqb_eq in Ey. lia.
Qed.

Lemma sort_by_id_statuses (job_list : list Job) :
  Permutation (map job_status (sort_by_id job_list)) (map job_status job_list).
Proof. apply Permutation_map, stable_sort_perm. Qed.

Lemma sort_by_id_length (job_list : list Job) :
  List.length (sort_by_id job_list) = List.length job_list.
Proof. apply stable_sort_length. Qed.

(* ----------------------------------------------------------------- *)
(** ** The classifier *)

Lemma status_in_iff (x : string) (statuses : list string) :
  status_in x statuses = true <-> In x statuses.
Proof.
  unfold status_in. rewrite existsb_exists. split.
  - intros [y [Hin Heq]]. apply String.eqb_eq in Heq. now subst y.
  - intros Hin. exists x. split; [assumption | apply String.eqb_refl].
Qed.

Lemma status_in_perm (x : string) (l l' : list string) :
  Permutation l l' -> status_in x l = status_in x l'.
Proof.
  intros HP.
  destruct (status_in x l) eqn:E, (status_in x l') eqn:E'; auto.
  - apply status_in_iff in E. apply (Permutation_in _ HP) in E.
    apply status_in_iff in E. congruence.
  - apply status_in_iff in E'. apply (Permutation_in _ (Permutation_sym HP)) in E'.
    apply status_in_iff in E'. congruence.
Qed.

(** The first branch looks at the status list only: it is taken exactly on
    the one-element list [["success"]]. *)
Lemma first_try_success_iff (job_list : list Job) :
  first_try_success job_list = true <-> map job_status job_list = ["success"].
Proof.
  unfold first_try_success.
  destruct job_list as [|j [|j' l]].
  - simpl. split; discriminate.
  - simpl. rewrite String.eqb_eq.
    split; [intros -> | intros [= ->]]; reflexivity.
  - split; [|discriminate].
    intros H. apply andb_prop in H. destruct H as [H _].
    apply Z.eqb_eq in H. simpl List.length in H. lia.
Qed.

Lemma first_try_success_perm (l l' : list Job) :
  Permutation (map job_status l) (map job_status l') ->
  first_try_success l = first_try_success l'.
Proof.
  intros HP.
  destruct (first_try_success l) eqn:E, (first_try_success l') eqn:E'; auto.
  - apply first_try_success_iff in E. rewrite E in HP.
    apply Permutation_length_1_inv in HP.
    apply first_try_success_iff in HP. congruence.
  - apply first_try_success_iff in E'. rewrite E' in HP.
    apply Permutation_sym, Permutation_length_1_inv in HP.
    apply first_try_success_iff in HP. congruence.
Qed.

(** The verdict is a function of the multiset of statuses. *)
Lemma verdict_perm (l l' : list Job) :
  Permutation (map job_status l) (map job_status l') ->
  verdict l = verdict l'.
Proof.
  intros HP. unfold verdict.
  rewrite (first_try_success_perm l l' HP).
  rewrite (status_in_perm "success" _ _ HP), (status_in_perm "failed" _ _ HP).
  assert (HL : List.length l = List.length l').
  { apply Permutation_length in HP. now rewrite !length_map in HP. }
  now rewrite HL.
Qed.

Lemma verdict_sort_by_id (job_list : list Job) :
  verdict (sort_by_id job_list) = verdict job_list.
Proof. apply verdict_perm, sort_by_id_statuses. Qed.

Lemma verdict_flaky (job_list : list Job) :
  In "failed" (map job_status job_list) ->
  In "success" (map job_status job_list) ->
  verdict job_list = Flaky.
Proof.
  intros Hf Hs. unfold verdict.
  destruct (first_try_success job_list) eqn:E.
  - apply first_try_success_iff in E. rewrite E in Hf.
    destruct Hf as [Hf | []]. discriminate.
  - apply status_in_iff in Hf, Hs. now rewrite Hf, Hs.
Qed.

Lemma verdict_legitimate (job_list : list Job) :
  In "failed" (map job_status job_list) ->
  ~ In "success" (map job_status job_list) ->
  verdict job_list = LegitimateFailure.
Proof.
  intros Hf Hs. unfold verdict.
  destruct (first_try_success job_list) eqn:E.
  - apply first_try_success_iff in E. rewrite E in Hs.
    exfalso. apply Hs. now left.
  - apply status_in_iff in Hf. rewrite Hf.
    destruct (status_in "success" (map job_status job_list)) eqn:Es.
    + apply status_in_iff in Es. contradiction.
    + reflexivity.
Qed.

Lemma analyze_group_eq (p : Pipeline) (pipeline_id : Z) (name : string)
  (job_list : list Job) (st : State) :
  let n := Z.of_nat (List.length job_list) in
  let v := verdict (sort_by_id job_list) in
  analyze_group p pipeline_id name job_list st
  = mkState
      (dict_update default_stats name (entry_update v pipeline_id n)
                   (job_stats st))
      (match v with
       | Flaky =>
           flakey_details st ++
           [mkDetail pipeline_id (pipeline_ref p) name n
                     (map job_status (sort_by_id job_list))]
       | _ => flakey_details st
       end)
      (logged_errors st).
Proof.
  intros n v. unfold analyze_group.
  rewrite sort_by_id_length. fold n. fold v.
  destruct v; rewrite ?update_stats_fuse; unfold update_stats, append_detail;
    simpl; rewrite ?dict_update_fuse; reflexivity.
Qed.

Lemma counts_of_entry_update (v : Verdict) (pipeline_id n : Z) (s : JobStats) :
  counts_of (entry_update v pipeline_id n s)
  = counts_add (counts_of s) (group_counts v n).
Proof.
  destruct v; unfold counts_of, counts_add; simpl; f_equal; lia.
Qed.

Lemma counts_at_analyze_group (p : Pipeline) (pipeline_id : Z)
  (name name' : string) (job_list : list Job) (st : State) :
  counts_at name' (job_stats (analyze_group p pipeline_id name job_list st))
  = if String.eqb name name'
    then counts_add (counts_at name' (job_stats st))
           (group_counts (verdict (sort_by_id job_list))
                         (Z.of_nat (List.length job_list)))
    else counts_at name' (job_stats st).
Proof.
  rewrite analyze_group_eq. unfold counts_at. cbn [job_stats].
  destruct (String.eqb name name') eqn:E.
  - apply String.eqb_eq in E. subst name'.
    now rewrite dict_get_update_same, counts_of_entry_update.
  - apply String.eqb_neq in E.
    rewrite dict_get_update_other; auto.
Qed.

(** C1. A group whose statuses hold at least one "failed" and at least one
    "success" takes the Flaky branch: with [n] the size of the group, the
    entry of its job name gains one group, one flaky occurrence, and [n - 1]
    on both the total and the flaky retry-attempt counters (the other
    counters keep their values), the pipeline id is appended to
    [flakey_pipelines], and exactly one record is appended to
    [flakey_details], holding the pipeline id, the ref, the job name, [n]
    and the statuses in ascending order of job id. *)
Theorem flaky_group_is_recorded (p : Pipeline) (pipeline_id : Z)
  (name : string) (job_list : list Job) (st : State) :
  In "failed" (map job_status job_list) ->
  In "success" (map job_status job_list) ->
  let n := Z.of_nat (List.length job_list) in
  let st' := analyze_group p pipeline_id name job_list st in
  verdict (sort_by_id job_list) = Flaky
  /\ flakey_retry_attempts (dict_get default_stats name (job_stats st'))
     = flakey_retry_attempts (dict_get default_stats name (job_stats st))
       + (n - 1)
  /\ counts_at name (job_stats st')
     = counts_add (counts_at name (job_stats st))
                  (mkCounts 1 1 0 0 0 (n - 1) (n - 1) 0)
  /\ flakey_pipelines (dict_get default_stats name (job_stats st'))
     = flakey_pipelines (dict_get default_stats name (job_stats st))
       ++ [pipeline_id]
  /\ flakey_details st'
     = flakey_details st
       ++ [mkDetail pipeline_id (pipeline_ref p) name n
                    (map job_status (sort_by_id job_list))].
Proof.
  intros Hf Hs n st'.
  assert (Hv : verdict (sort_by_id job_list) = Flaky).
  { rewrite verdict_sort_by_id. now apply verdict_flaky. }
  subst st'. rewrite analyze_group_eq. fold n. rewrite Hv.
  cbn [job_stats flakey_details]. unfold counts_at.
  rewrite dict_get_update_same.
  repeat split; try reflexivity.
  now rewrite counts_of_entry_update.
Qed.

(** C8. A group whose statuses hold at least one "failed" and no "success"
    takes the LegitimateFailure branch: the entry of its job name gains one
    group, one legitimate failure, and [n - 1] on both the total and the
    legitimate retry-attempt counters; no record is appended. *)
Theorem legitimate_failure_group_is_recorded (p : Pipeline) (pipeline_id : Z)
  (name : string) (job_list : list Job) (st : State) :
  In "failed" (map job_status job_list) ->
  ~ In "success" (map job_status job_list) ->
  let n := Z.of_nat (List.length job_list) in
  let st' := analyze_group p pipeline_id name job_list st in
  verdict (sort_by_id job_list) = LegitimateFailure
  /\ legitimate_retry_attempts (dict_get default_stats name (job_stats st'))
     = legitimate_retry_attempts (dict_get default_stats name (job_stats st))
       + (n - 1)
  /\ counts_at name (job_stats st')
     = counts_add (counts_at name (job_stats st))
                  (mkCounts 1 0 1 0 0 (n - 1) 0 (n - 1))
  /\ flakey_details st' = flakey_details st.
Proof.
  intros Hf Hs n st'.
  assert (Hv : verdict (sort_by_id job_list) = LegitimateFailure).
  { rewrite verdict_sort_by_id. now apply verdict_legitimate. }
  subst st'. rewrite analyze_group_eq. fold n. rewrite Hv.
  cbn [job_stats flakey_details]. unfold counts_at.
  rewrite dict_get_update_same.
  repeat split; try reflexivity.
  now rewrite counts_of_entry_update.
Qed.

(** C10. Two groups with the same multiset of statuses (in particular a
    group and any permutation of its executions) receive the same verdict
    and the same retry-attempt count, and leave the same counters in
    [job_stats] for every job name; sorting by id does not change the
    verdict of a group. *)
Theorem verdict_depends_on_status_multiset (p : Pipeline) (pipeline_id : Z)
  (name : string) (l l' : list Job) (st : State) :
  Permutation (map job_status l) (map job_status l') ->
  verdict (sort_by_id l) = verdict (sort_by_id l')
  /\ verdict (sort_by_id l) = verdict l
  /\ Z.of_nat (List.length (sort_by_id l)) - 1
     = Z.of_nat (List.length (sort_by_id l')) - 1
  /\ forall name',
       counts_at name' (job_stats (analyze_group p pipeline_id name l st))
       = counts_at name' (job_stats (analyze_group p pipeline_id name l' st)).
Proof.
  intros HP.
  assert (HL : List.length l = List.length l').
  { apply Permutation_length in HP. now rewrite !length_map in HP. }
  assert (HV : verdict (sort_by_id l) = verdict (sort_by_id l')).
  { rewrite !verdict_sort_by_id. now apply verdict_perm. }
  repeat split.
  - exact HV.
  - apply verdict_sort_by_id.
  - now rewrite !sort_by_id_length, HL.
  - intros name'. rewrite !counts_at_analyze_group. now rewrite HV, HL.
Qed.

(* ----------------------------------------------------------------- *)
(** ** Aggregation is additive *)

Lemma counts_add_comm (a b : Counts) : counts_add a b = counts_add b a.
Proof. unfold counts_add. f_equal; lia. Qed.

Lemma counts_add_assoc (a b c : Counts) :
  counts_add a (counts_add b c) = counts_add (counts_add a b) c.
Proof. unfold counts_add. simpl. f_equal; lia. Qed.

Lemma counts_add_zero_r (a : Counts) : counts_add a counts_zero = a.
Proof. destruct a. unfold counts_add. simpl. f_equal; lia. Qed.

Lemma counts_sum_perm (l l' : list Counts) :
  Permutation l l' -> counts_sum l = counts_sum l'.
Proof.
  induction 1 as [|x l l' _ IH|x y l|l l' l'' _ IH1 _ IH2]; simpl.
  - reflexivity.
  - now rewrite IH.
  - rewrite !counts_add_assoc. f_equal. apply counts_add_comm.
  - now rewrite IH1.
Qed.

Section Additive.

(** A reading [m] of [job_stats] to which every group adds [delta]. *)
Variable m : Dict JobStats -> Counts.
Variable delta : string -> list Job -> Counts.
Hypothesis m_group :
  forall p pipeline_id name job_list st,
    m (job_stats (analyze_group p pipeline_id name job_list st))
    = counts_add (m (job_stats st)) (delta name job_list).

Lemma m_fold_groups (p : Pipeline) (pipeline_id : Z)
  (groups : Dict (list Job)) (st : State) :
  m (job_stats
       (fold_left
          (fun st' group =>
             analyze_group p pipeline_id (fst group) (snd group) st')
          groups st))
  = counts_add (m (job_stats st))
      (counts_sum (map (fun group => delta (fst group) (snd group)) groups)).
Proof.
  revert st. induction groups as [|g groups IH]; intros st; simpl.
  - now rewrite counts_add_zero_r.
  - rewrite IH, m_group. now rewrite counts_add_assoc.
Qed.

Lemma m_result (result : PipelineResult) (st : State) :
  m (job_stats (analyze_result result st))
  = counts_add (m (job_stats st)) (result_delta delta result).
Proof.
  unfold analyze_result, result_delta.
  destruct (success result); simpl.
  - apply m_fold_groups.
  - now rewrite counts_add_zero_r.
Qed.

Lemma m_results (results : list PipelineResult) (st : State) :
  m (job_stats (fold_left (fun st' r => analyze_result r st') results st))
  = counts_add (m (job_stats st))
      (counts_sum (map (result_delta delta) results)).
Proof.
  revert st. induction results as [|r results IH]; intros st; simpl.
  - now rewrite counts_add_zero_r.
  - rewrite IH, m_result. now rewrite counts_add_assoc.
Qed.

Lemma m_permutation (results results' : list PipelineResult) :
  Permutation results results' ->
  m (job_stats (analyze_results results))
  = m (job_stats (analyze_results results')).
Proof.
  intros HP. unfold analyze_results. rewrite !m_results.
  f_equal. apply counts_sum_perm. now apply Permutation_map.
Qed.

End Additive.

(** The sums of the report. *)
Lemma fold_left_add (l : list Z) (a : Z) : fold_left Z.add l a = a + zsum l.
Proof.
  revert a. induction l as [|x l IH]; intros a; simpl.
  - lia.
  - rewrite IH. lia.
Qed.

Lemma zsum_perm (l l' : list Z) : Permutation l l' -> zsum l = zsum l'.
Proof.
  induction 1; simpl; lia.
Qed.

Lemma sum_field_zsum (field : JobStats -> Z) (d : Dict JobStats) :
  Report.sum_field field d = zsum (map (fun item => field (snd item)) d).
Proof. unfold Report.sum_field. rewrite fold_left_add. lia. Qed.

Lemma accumulate_sum_field (field : JobStats -> Z) (d : Dict JobStats) :
  Report.accumulate field d = Report.sum_field field d.
Proof.
  rewrite sum_field_zsum. unfold Report.accumulate, Report.sorted_items.
  rewrite <- (zsum_perm _ _
    (Permutation_map (fun item => field (snd item))
       (stable_sort_perm (fun a b => String.leb (fst a) (fst b)) d))).
  generalize (stable_sort (fun a b : string * JobStats =>
                             String.leb (fst a) (fst b)) d) as l.
  intros l. assert (H : forall a, fold_left
    (fun total item => total + field (snd item)) l a
    = a + zsum (map (fun item => field (snd item)) l)).
  { induction l as [|x l IH]; intros a; simpl; [lia | rewrite IH; lia]. }
  rewrite H. lia.
Qed.

Lemma sum_field_update (field : JobStats -> Z) (key : string)
  (f : JobStats -> JobStats) (d : Dict JobStats) :
  field default_stats = 0 ->
  Report.sum_field field (dict_update default_stats key f d)
  = Report.sum_field field d
    + (field (f (dict_get default_stats key d))
       - field (dict_get default_stats key d)).
Proof.
  intros H0. rewrite !sum_field_zsum.
  induction d as [|[k v] d IH]; simpl.
  - lia.
  - destruct (String.eqb k key); simpl; lia.
Qed.

Lemma totals_update (key : string) (v : Verdict) (pipeline_id n : Z)
  (d : Dict JobStats) :
  totals (dict_update default_stats key (entry_update v pipeline_id n) d)
  = counts_add (totals d) (group_counts v n).
Proof.
  unfold totals, Report.total_job_groups, Report.total_flakey,
    Report.total_legitimate, Report.total_clean, Report.total_other,
    Report.total_all_retries, Report.total_flakey_retries,
    Report.total_legit_retries.
  rewrite !accumulate_sum_field.
  rewrite !sum_field_update by reflexivity.
  unfold counts_add. cbn [n_groups n_flakey n_legitimate n_clean n_other
    n_retries n_flakey_retries n_legitimate_retries].
  destruct v; simpl; f_equal; lia.
Qed.

Lemma totals_analyze_group (p : Pipeline) (pipeline_id : Z) (name : string)
  (job_list : list Job) (st : State) :
  totals (job_stats (analyze_group p pipeline_id name job_list st))
  = counts_add (totals (job_stats st))
      (group_counts (verdict (sort_by_id job_list))
                    (Z.of_nat (List.length job_list))).
Proof.
  rewrite analyze_group_eq. cbn [job_stats]. apply totals_update.
Qed.

Lemma counts_at_analyze_group_add (name' : string) (p : Pipeline)
  (pipeline_id : Z) (name : string) (job_list : list Job) (st : State) :
  counts_at name' (job_stats (analyze_group p pipeline_id name job_list st))
  = counts_add (counts_at name' (job_stats st))
      (if String.eqb name name'
       then group_counts (verdict (sort_by_id job_list))
                         (Z.of_nat (List.length job_list))
       else counts_zero).
Proof.
  rewrite counts_at_analyze_group.
  destruct (String.eqb name name'); [reflexivity|].
  now rewrite counts_add_zero_r.
Qed.

Lemma totals_permutation (results results' : list PipelineResult) :
  Permutation results results' ->
  totals (job_stats (analyze_results results))
  = totals (job_stats (analyze_results results')).
Proof.
  apply (m_permutation totals
           (fun _ job_list =>
              group_counts (verdict (sort_by_id job_list))
                           (Z.of_nat (List.length job_list)))).
  intros. apply totals_analyze_group.
Qed.

Lemma counts_at_permutation (name : string)
  (results results' : list PipelineResult) :
  Permutation results results' ->
  counts_at name (job_stats (analyze_results results))
  = counts_at name (job_stats (analyze_results results')).
Proof.
  apply (m_permutation (counts_at name)
           (fun name0 job_list =>
              if String.eqb name0 name
              then group_counts (verdict (sort_by_id job_list))
                                (Z.of_nat (List.length job_list))
              else counts_zero)).
  intros. apply counts_at_analyze_group_add.
Qed.

(** C5. Folding the per-pipeline results in any order gives the same
    counters for every job name (group count, the four verdict counts, the
    retry attempts and their split by verdict), the same eight global
    totals, and the same flakiness and reliability rates. *)
Theorem aggregation_is_order_independent
  (results results' : list PipelineResult) :
  Permutation results results' ->
  let s := job_stats (analyze_results results) in
  let s' := job_stats (analyze_results results') in
  (forall name, counts_at name s = counts_at name s')
  /\ totals s = totals s'
  /\ Report.flakiness_rate s = Report.flakiness_rate s'
  /\ Report.reliability_rate s = Report.reliability_rate s'.
Proof.
  intros HP s s'.
  assert (HT : totals s = totals s') by now apply totals_permutation.
  split; [|split; [exact HT|]].
  - intros name. now apply counts_at_permutation.
  - assert (Hg : Report.total_job_groups s = Report.total_job_groups s')
      by exact (f_equal n_groups HT).
    assert (Hf : Report.total_flakey s = Report.total_flakey s')
      by exact (f_equal n_flakey HT).
    assert (Hc : Report.total_clean s = Report.total_clean s')
      by exact (f_equal n_clean HT).
    unfold Report.flakiness_rate, Report.reliability_rate.
    now rewrite Hg, Hf, Hc.
Qed.

Lemma aggregation_is_order_independent_witness :
  Permutation [Examples.result_101; Examples.result_103; Examples.result_102]
              [Examples.result_102; Examples.result_101; Examples.result_103]
  /\ totals (job_stats (analyze_results
       [Examples.result_101; Examples.result_103; Examples.result_102]))
     = totals (job_stats (analyze_results
       [Examples.result_102; Examples.result_101; Examples.result_103])).
Proof.
  assert (HP : Permutation
            [Examples.result_101; Examples.result_103; Examples.result_102]
            [Examples.result_102; Examples.result_101; Examples.result_103]).
  { apply Permutation_sym.
    apply (Permutation_cons_app [Examples.result_101; Examples.result_103] []).
    apply Permutation_refl. }
  split; [exact HP|].
  exact (proj1 (proj2 (aggregation_is_order_independent _ _ HP))).
Defined.

(* ----------------------------------------------------------------- *)
(** ** The resilient fetcher *)

Import Attempt.

Lemma requests_sent_after_get {A} (o : GetOutcome A) (c : Client) :
  requests_sent (after_get o c) = S (requests_sent c).
Proof.
  destruct o as [r|msg]; simpl; [|reflexivity].
  unfold update_rate_limit_info.
  destruct (hdr_ratelimit_remaining r), (hdr_ratelimit_reset r); reflexivity.
Qed.

Lemma slept_after_get {A} (o : GetOutcome A) (c : Client) :
  slept (after_get o c) = slept c.
Proof.
  destruct o as [r|msg]; simpl; [|reflexivity].
  unfold update_rate_limit_info.
  destruct (hdr_ratelimit_remaining r), (hdr_ratelimit_reset r); reflexivity.
Qed.

Section AttemptSteps.

Context {A : Type}.
Variable attempts : nat.
Variable backoff : Z.
Variable srv : Server A.
Variable req : Request.

(** An attempt that ends with a [RequestException]. *)
Lemma for_attempt_exception (i : nat) (range : list nat) (c : Client)
  (e : RequestException) :
  exception_of (srv (requests_sent c) req) = Some e ->
  for_attempt attempts backoff srv req (i :: range) c
  = if Z.of_nat i <? Z.of_nat attempts - 1
    then for_attempt attempts backoff srv req range
           (time_sleep (backoff ^ Z.of_nat i)
                       (after_get (srv (requests_sent c) req) c))
    else (Raise e, after_get (srv (requests_sent c) req) c).
Proof.
  intros He. simpl.
  destruct (srv (requests_sent c) req) as [r|msg]; simpl in *.
  - destruct (status_code r =? 429); [discriminate|].
    now rewrite He.
  - now injection He as <-.
Qed.

(** An attempt answered 429. *)
Lemma for_attempt_rate_limited (i : nat) (range : list nat) (c : Client)
  (r : Response A) :
  srv (requests_sent c) req = Responded r ->
  status_code r = 429 ->
  for_attempt attempts backoff srv req (i :: range) c
  = for_attempt attempts backoff srv req range
      (time_sleep (retry_after_seconds r)
                  (after_get (srv (requests_sent c) req) c)).
Proof.
  intros Ho Hs. simpl. rewrite Ho. simpl.
  now rewrite Hs.
Qed.

(** An attempt answered with a status that [raise_for_status] accepts. *)
Lemma for_attempt_return (i : nat) (range : list nat) (c : Client)
  (r : Response A) :
  srv (requests_sent c) req = Responded r ->
  exception_of (Responded r) = None ->
  status_code r <> 429 ->
  for_attempt attempts backoff srv req (i :: range) c
  = (Return r, after_get (srv (requests_sent c) req) c).
Proof.
  intros Ho He Hs. simpl. rewrite Ho. simpl in *.
  apply Z.eqb_neq in Hs. rewrite Hs in *. now rewrite He.
Qed.

End AttemptSteps.

Lemma transient_failure_exception {A} (o : GetOutcome A) :
  transient_failure o = true -> exists e, exception_of o = Some e.
Proof.
  destruct o as [r|msg]; simpl; [|eauto].
  intros H. apply andb_prop in H. destruct H as [H1 H2].
  apply Z.leb_le in H1. apply Z.ltb_lt in H2.
  unfold raise_for_status.
  destruct (status_code r =? 429) eqn:E; [apply Z.eqb_eq in E; lia|].
  replace (400 <=? status_code r) with true by (symmetry; apply Z.leb_le; lia).
  replace (status_code r <? 600) with true by (symmetry; now apply Z.ltb_lt).
  simpl. eauto.
Qed.

Lemma client_error_exception {A} (o : GetOutcome A) :
  client_error o = true -> exists e, exception_of o = Some e.
Proof.
  destruct o as [r|msg]; simpl; [|discriminate].
  intros H. apply andb_prop in H. destruct H as [H H3].
  apply andb_prop in H. destruct H as [H1 H2].
  apply Z.leb_le in H1. apply Z.ltb_lt in H2.
  apply negb_true_iff in H3. rewrite H3.
  unfold raise_for_status.
  replace (400 <=? status_code r) with true by (symmetry; now apply Z.leb_le).
  replace (status_code r <? 600) with true by (symmetry; apply Z.ltb_lt; lia).
  simpl. eauto.
Qed.

Lemma successful_no_exception {A} (r : Response A) :
  successful r = true ->
  exception_of (Responded r) = None /\ status_code r <> 429.
Proof.
  unfold successful. intros H. apply andb_prop in H. destruct H as [H1 H2].
  apply Z.leb_le in H1. apply Z.ltb_lt in H2. simpl.
  unfold raise_for_status.
  destruct (status_code r =? 429) eqn:E; [apply Z.eqb_eq in E; lia|].
  replace (status_code r <? 600) with true by (symmetry; apply Z.ltb_lt; lia).
  replace (400 <=? status_code r) with false by (symmetry; apply Z.leb_gt; lia).
  split; [reflexivity | lia].
Qed.

Section Schedule.

Context {A : Type}.
Variable attempts : nat.
Variable backoff : Z.
Variable srv : Server A.
Variable req : Request.

(** [n] failing attempts from attempt [a] on, none of them the last, then a
    success. *)
Lemma failures_then_success (r : Response A) (n : nat) :
  forall (a : nat) (c : Client),
    (a + S n = attempts)%nat ->
    (forall k, (k < n)%nat ->
               transient_failure (srv (requests_sent c + k)%nat req) = true) ->
    srv (requests_sent c + n)%nat req = Responded r ->
    successful r = true ->
    let out := for_attempt attempts backoff srv req (seq a (S n)) c in
    fst out = Return r
    /\ requests_sent (snd out) = (requests_sent c + S n)%nat
    /\ slept (snd out)
       = slept c ++ map (fun i => backoff ^ Z.of_nat i) (seq a n).
Proof.
  induction n as [|n IH]; intros a c Ha Hfail Hlast Hok out; subst out.
  - rewrite Nat.add_0_r in Hlast.
    destruct (successful_no_exception r Hok) as [He Hs].
    cbn [seq].
    rewrite (for_attempt_return attempts backoff srv req a [] c r Hlast He Hs).
    cbn [fst snd map seq].
    rewrite requests_sent_after_get, slept_after_get, app_nil_r.
    repeat split; lia.
  - assert (H0 : transient_failure (srv (requests_sent c) req) = true).
    { specialize (Hfail 0%nat). rewrite Nat.add_0_r in Hfail.
      apply Hfail. lia. }
    destruct (transient_failure_exception _ H0) as [e He].
    change (seq a (S (S n))) with (a :: seq (S a) (S n)).
    rewrite (for_attempt_exception attempts backoff srv req a _ c e He).
    replace (Z.of_nat a <? Z.of_nat attempts - 1) with true
      by (symmetry; apply Z.ltb_lt; lia).
    set (c' := time_sleep (backoff ^ Z.of_nat a)
                          (after_get (srv (requests_sent c) req) c)).
    assert (Hsent : requests_sent c' = S (requests_sent c)).
    { unfold c'. simpl. apply requests_sent_after_get. }
    assert (Hslept : slept c' = slept c ++ [backoff ^ Z.of_nat a]).
    { unfold c'. simpl. now rewrite slept_after_get. }
    destruct (IH (S a) c') as [H1 [H2 H3]].
    + lia.
    + intros k Hk. rewrite Hsent.
      replace (S (requests_sent c) + k)%nat
        with (requests_sent c + S k)%nat by lia.
      apply Hfail. lia.
    + rewrite Hsent.
      replace (S (requests_sent c) + n)%nat
        with (requests_sent c + S n)%nat by lia.
      exact Hlast.
    + exact Hok.
    + rewrite H1, H2, H3, Hsent, Hslept.
      repeat split; [lia|].
      rewrite <- app_assoc. reflexivity.
Qed.

End Schedule.

(** C9. A fetch whose first [attempts - 1] attempts fail transiently (a
    network error or a 5xx status) and whose last attempt is answered 2xx
    returns that response; it has sent [attempts] requests, and between
    them it has slept [backoff ^ i] seconds after the attempt of index [i],
    for [i = 0 .. attempts - 2] (1 s then 2 s for the script's constants). *)
Theorem retry_then_success_follows_backoff_schedule {A : Type}
  (attempts : nat) (backoff : Z) (srv : Server A) (req : Request)
  (c : Client) (r : Response A) :
  (1 <= attempts)%nat ->
  (forall k, (k < attempts - 1)%nat ->
             transient_failure (srv (requests_sent c + k)%nat req) = true) ->
  srv (requests_sent c + (attempts - 1))%nat req = Responded r ->
  successful r = true ->
  let out := request_with_retry attempts backoff srv req c in
  fst out = Return r
  /\ requests_sent (snd out) = (requests_sent c + attempts)%nat
  /\ slept (snd out)
     = slept c ++ map (fun i => backoff ^ Z.of_nat i) (seq 0 (attempts - 1)).
Proof.
  intros Hpos Hfail Hlast Hok. unfold request_with_retry.
  destruct attempts as [|n]; [lia|].
  replace (S n - 1)%nat with n in * by lia.
  apply (failures_then_success (S n) backoff srv req r n 0%nat c);
    auto.
Qed.

Lemma retry_then_success_follows_backoff_schedule_witness :
  Examples.server_two_failures 2%nat Examples.some_request
  = Responded (Examples.page Examples.jobs_102 None)
  /\ fst (make_api_request_with_retry Examples.server_two_failures
            Examples.some_request new_client)
     = Return (Examples.page Examples.jobs_102 None)
  /\ slept (snd (make_api_request_with_retry Examples.server_two_failures
                   Examples.some_request new_client))
     = [1; 2].
Proof.
  split; [reflexivity|].
  assert (Hfail : forall k, (k < RETRY_ATTEMPTS - 1)%nat ->
            transient_failure
              (Examples.server_two_failures (requests_sent new_client + k)%nat
                 Examples.some_request) = true).
  { intros [|[|k]] Hk; [reflexivity | reflexivity |].
    unfold RETRY_ATTEMPTS in Hk. simpl in Hk. lia. }
  pose proof (retry_then_success_follows_backoff_schedule
                RETRY_ATTEMPTS RETRY_BACKOFF Examples.server_two_failures
                Examples.some_request new_client
                (Examples.page Examples.jobs_102 None)
                (le_S _ _ (le_S _ _ (le_n 1))) Hfail eq_refl eq_refl) as H.
  split; [exact (proj1 H) | exact (proj2 (proj2 H))].
Defined.

(** C2, as the code has it. A response with status 429 makes the fetcher
    sleep for the value of [Retry-After] (60 seconds when the header is
    absent) and go on to the next attempt of its loop; the attempt answered
    429 is spent: the fetch continues with the attempts that remained after
    it only, and when none remains it raises "Max retries exceeded". *)
Theorem rate_limited_attempt_is_spent {A : Type} (attempts : nat)
  (backoff : Z) (srv : Server A) (req : Request) (i : nat)
  (range : list nat) (c : Client) (r : Response A) :
  srv (requests_sent c) req = Responded r ->
  status_code r = 429 ->
  for_attempt attempts backoff srv req (i :: range) c
  = for_attempt attempts backoff srv req range
      (time_sleep
         (match hdr_retry_after r with Some n => Z.of_N n | None => 60 end)
         (update_rate_limit_info r (count_request c)))
  /\ forall c', for_attempt attempts backoff srv req [] c'
                = (Raise MaxRetriesExceeded, c').
Proof.
  intros Ho Hs. split; [|reflexivity].
  rewrite (for_attempt_rate_limited attempts backoff srv req i range c r Ho Hs).
  rewrite Ho. reflexivity.
Qed.

Lemma rate_limited_attempt_is_spent_witness :
  status_code (Examples.status_response 429 (Some 5%N)) = 429
  /\ make_api_request_with_retry Examples.server_429_thrice
       Examples.some_request new_client
     = for_attempt RETRY_ATTEMPTS RETRY_BACKOFF Examples.server_429_thrice
         Examples.some_request [1%nat; 2%nat] (mkClient 1 [5] None None).
Proof.
  split; [reflexivity|].
  exact (proj1 (rate_limited_attempt_is_spent RETRY_ATTEMPTS RETRY_BACKOFF
                  Examples.server_429_thrice Examples.some_request 0%nat
                  [1%nat; 2%nat] new_client
                  (Examples.status_response 429 (Some 5%N))
                  eq_refl eq_refl)).
Defined.

(** C2 as stated fails: answered 429 three times (Retry-After: 5), the fetch
    sleeps three times and ends with "Max retries exceeded" although no
    attempt failed and the fourth answer would have been a page; what is
    left of the fetch after the first 429 is not a fetch with its whole
    budget. *)
Lemma rate_limit_wait_counts_against_budget :
  make_api_request_with_retry Examples.server_429_thrice
    Examples.some_request new_client
  = (Raise MaxRetriesExceeded, mkClient 3 [5; 5; 5] None None)
  /\ make_api_request_with_retry Examples.server_429_thrice
       Examples.some_request (mkClient 1 [5] None None)
     = (Return (Examples.page Examples.jobs_102 None),
        mkClient 4 [5; 5; 5] None None)
  /\ make_api_request_with_retry Examples.server_429_thrice
       Examples.some_request new_client
     <> make_api_request_with_retry Examples.server_429_thrice
          Examples.some_request (mkClient 1 [5] None None).
Proof.
  split; [reflexivity|]. split; [reflexivity|].
  intros H. vm_compute in H. discriminate H.
Qed.

(** C3, as the code has it. An attempt answered with a 4xx status other than
    429 is handled exactly like one answered 5xx or one that met a network
    error: it ends with a [RequestException]; on any attempt but the last of
    the budget the fetcher sleeps [backoff ^ attempt] seconds and goes on to
    the next attempt, and only on the last attempt the exception reaches the
    caller. *)
Theorem failed_attempt_is_retried_whatever_its_class {A : Type}
  (attempts : nat) (backoff : Z) (srv : Server A) (req : Request) (i : nat)
  (range : list nat) (c : Client) :
  client_error (srv (requests_sent c) req) = true
  \/ transient_failure (srv (requests_sent c) req) = true ->
  exists e,
    exception_of (srv (requests_sent c) req) = Some e
    /\ for_attempt attempts backoff srv req (i :: range) c
       = if Z.of_nat i <? Z.of_nat attempts - 1
         then for_attempt attempts backoff srv req range
                (time_sleep (backoff ^ Z.of_nat i)
                            (after_get (srv (requests_sent c) req) c))
         else (Raise e, after_get (srv (requests_sent c) req) c).
Proof.
  intros H.
  assert (He : exists e, exception_of (srv (requests_sent c) req) = Some e).
  { destruct H as [H | H].
    - now apply client_error_exception.
    - now apply transient_failure_exception. }
  destruct He as [e He]. exists e. split; [exact He|].
  now apply for_attempt_exception.
Qed.

Lemma failed_attempt_is_retried_whatever_its_class_witness :
  client_error (Examples.server_404 0%nat Examples.some_request) = true
  /\ exists e,
       exception_of (Examples.server_404 0%nat Examples.some_request) = Some e
       /\ for_attempt RETRY_ATTEMPTS RETRY_BACKOFF Examples.server_404
            Examples.some_request [2%nat] (mkClient 2 [1; 2] None None)
          = (Raise e, mkClient 3 [1; 2] None None).
Proof.
  split; [reflexivity|].
  exact (failed_attempt_is_retried_whatever_its_class RETRY_ATTEMPTS
           RETRY_BACKOFF Examples.server_404 Examples.some_request 2%nat []
           (mkClient 2 [1; 2] None None) (or_introl eq_refl)).
Defined.

(** C3 as stated fails: answered 404 and then 200, the fetch does not end
    with the 404; it sleeps one second, sends a second request and returns
    the page. *)
Lemma client_error_is_not_surfaced_immediately :
  client_error (Examples.server_404_once 0%nat Examples.some_request) = true
  /\ make_api_request_with_retry Examples.server_404_once
       Examples.some_request new_client
     = (Return (Examples.page Examples.jobs_102 None),
        mkClient 2 [1] None None)
  /\ ~ surfaced_immediately Examples.server_404_once Examples.some_request
         new_client.
Proof.
  split; [reflexivity|]. split; [reflexivity|].
  intros [e H]. vm_compute in H. discriminate H.
Qed.

(* ----------------------------------------------------------------- *)
(** ** The paginator *)

(** C4, as the code has it. A page with no items ends the loop whether or
    not it carries a next link: the items accumulated so far are returned
    and no further request is sent. *)
Theorem empty_page_ends_pagination {A : Type} (fuel : nat) (srv : Server A)
  (url : string) (params : Params) (items : list A) (c c' : Client)
  (response : Response A) :
  PyStr.truthy url = true ->
  make_api_request_with_retry srv (mkRequest url params) c
  = (Return response, c') ->
  json response = [] ->
  page_loop (S fuel) srv (Some url) params items c = Some (Return items, c').
Proof.
  intros Hu Hr Hj. simpl. rewrite Hu. simpl.
  rewrite Hr, Hj. reflexivity.
Qed.

Lemma empty_page_ends_pagination_witness :
  next_url_of (Examples.link_to "https://gitlab.com/page3")
  = Some "https://gitlab.com/page3"
  /\ page_loop 5 Examples.server_empty_middle_page
       (Some "https://gitlab.com/page2") None
       [mkJob 12 "unit-tests" "failed"] (mkClient 1 [] None None)
     = Some (Return [mkJob 12 "unit-tests" "failed"],
             mkClient 2 [] None None).
Proof.
  split; [reflexivity|].
  exact (empty_page_ends_pagination 4 Examples.server_empty_middle_page
           "https://gitlab.com/page2" None [mkJob 12 "unit-tests" "failed"]
           (mkClient 1 [] None None) (mkClient 2 [] None None)
           (Examples.page [] (Some (Examples.link_to "https://gitlab.com/page3")))
           eq_refl eq_refl eq_refl).
Defined.

(** A page with items is accumulated and its next link, if any, followed. *)
Lemma nonempty_page_continues {A : Type} (fuel : nat) (srv : Server A)
  (url : string) (params : Params) (items : list A) (c c' : Client)
  (response : Response A) :
  PyStr.truthy url = true ->
  make_api_request_with_retry srv (mkRequest url params) c
  = (Return response, c') ->
  json response <> [] ->
  page_loop (S fuel) srv (Some url) params items c
  = page_loop fuel srv
      (next_url_of (match hdr_link response with
                    | Some h => h
                    | None => EmptyString
                    end))
      None (items ++ json response) c'.
Proof.
  intros Hu Hr Hj. simpl. rewrite Hu. simpl. rewrite Hr.
  destruct (json response) eqn:E; [contradiction | reflexivity].
Qed.

(** C4 as stated fails: the second page is empty and carries a next link to
    a third page that holds one more job; the collection stops at the
    second page, after two requests, and returns the job of the first page
    only. *)
Lemma empty_page_with_next_link_is_not_followed :
  Examples.server_empty_middle_page 1%nat
    (mkRequest "https://gitlab.com/page2" None)
  = Responded (Examples.page []
                 (Some (Examples.link_to "https://gitlab.com/page3")))
  /\ next_url_of (Examples.link_to "https://gitlab.com/page3")
     = Some "https://gitlab.com/page3"
  /\ fetch_pipeline_jobs 10 Examples.server_empty_middle_page "64459882" 101
       true new_client
     = Some (Return [mkJob 12 "unit-tests" "failed"],
             mkClient 2 [] None None)
  /\ page_loop 8 Examples.server_empty_middle_page
       (Some "https://gitlab.com/page3") None
       [mkJob 12 "unit-tests" "failed"] (mkClient 2 [] None None)
     = Some (Return [mkJob 12 "unit-tests" "failed";
                     mkJob 13 "unit-tests" "success"],
             mkClient 3 [] None None)
  /\ fetch_pipeline_jobs 10 Examples.server_empty_middle_page "64459882" 101
       true new_client
     <> page_loop 8 Examples.server_empty_middle_page
          (Some "https://gitlab.com/page3") None
          [mkJob 12 "unit-tests" "failed"] (mkClient 2 [] None None).
Proof.
  repeat (split; [reflexivity|]).
  intros H. vm_compute in H. discriminate H.
Qed.

(* ----------------------------------------------------------------- *)
(** ** The dispatcher *)

Import Dispatcher.

(** The record a task returns. *)
Lemma run_task_result (fuel : nat) (env : nat -> Server Job)
  (project_id : string) (i : nat) (p : Pipeline) (result : PipelineResult) :
  run_task fuel env project_id i p = Some result ->
  pipeline result = p
  /\ pipeline_id result = pl_id p
  /\ ((exists c, fetch_pipeline_jobs fuel (env i) project_id (pl_id p) true
                   new_client = Some (Return (jobs result), c))
      /\ success result = true /\ error result = None
      \/
      (exists e c, fetch_pipeline_jobs fuel (env i) project_id (pl_id p) true
                     new_client = Some (Raise e, c)
                   /\ error result = Some e)
      /\ success result = false /\ jobs result = []).
Proof.
  unfold run_task, fetch_pipeline_jobs_with_metadata.
  destruct (fetch_pipeline_jobs fuel (env i) project_id (pl_id p) true
              new_client) as [[[js|e] c]|]; simpl; intros [= <-]; simpl.
  - repeat split. left. repeat split. now exists c.
  - repeat split. right. repeat split. now exists e, c.
Qed.

Lemma run_task_local (fuel : nat) (env env' : nat -> Server Job)
  (project_id : string) (i : nat) (p : Pipeline) :
  env' i = env i ->
  run_task fuel env' project_id i p = run_task fuel env project_id i p.
Proof. unfold run_task. now intros ->. Qed.




Lemma drain_map (d : PipelineResult)
  (futures : list (option PipelineResult)) (order : list nat) :
  forall results,
    drain futures order = Some results ->
    results
    = map (fun i => match nth_error futures i with
                    | Some (Some r) => r
                    | _ => d
                    end) order.
Proof.
  induction order as [|i order IH]; intros results H; simpl in *.
  - now injection H as <-.
  - destruct (nth_error futures i) as [[r|]|]; try discriminate.
    destruct (drain futures order) as [rs|]; [|discriminate].
    injection H as <-. f_equal. now apply IH.
Qed.


Lemma Forall2_Forall_right {B C : Type} (R : B -> C -> Prop) (P : C -> Prop)
  (l : list B) (l' : list C) :
  (forall b c, R b c -> P c) -> Forall2 R l l' -> Forall P l'.
Proof.
  intros H. induction 1; constructor; eauto.
Qed.

(* ----------------------------------------------------------------- *)
(** ** Failed pipelines in the reduction *)

Lemma analyze_group_returned (p : Pipeline) (pipeline_id : Z) (name : string)
  (job_list : list Job) (st1 st2 : State) :
  returned st1 = returned st2 ->
  returned (analyze_group p pipeline_id name job_list st1)
  = returned (analyze_group p pipeline_id name job_list st2).
Proof.
  unfold returned. intros [= Hs Hd].
  rewrite !analyze_group_eq. cbn [job_stats flakey_details].
  now rewrite Hs, Hd.
Qed.

Lemma analyze_group_logged (p : Pipeline) (pipeline_id : Z) (name : string)
  (job_list : list Job) (st : State) :
  logged_errors (analyze_group p pipeline_id name job_list st)
  = logged_errors st.
Proof. now rewrite analyze_group_eq. Qed.

Lemma fold_groups_returned (p : Pipeline) (pipeline_id : Z)
  (groups : Dict (list Job)) :
  forall st1 st2,
    returned st1 = returned st2 ->
    returned (fold_left
                (fun st' group =>
                   analyze_group p pipeline_id (fst group) (snd group) st')
                groups st1)
    = returned (fold_left
                  (fun st' group =>
                     analyze_group p pipeline_id (fst group) (snd group) st')
                  groups st2).
Proof.
  induction groups as [|g groups IH]; intros st1 st2 H; simpl.
  - exact H.
  - apply IH. now apply analyze_group_returned.
Qed.

Lemma fold_groups_logged (p : Pipeline) (pipeline_id : Z)
  (groups : Dict (list Job)) :
  forall st,
    logged_errors (fold_left
                     (fun st' group =>
                        analyze_group p pipeline_id (fst group) (snd group) st')
                     groups st)
    = logged_errors st.
Proof.
  induction groups as [|g groups IH]; intros st; simpl.
  - reflexivity.
  - rewrite IH. apply analyze_group_logged.
Qed.

Lemma analyze_results_from (results : list PipelineResult) :
  forall st1 st2,
    returned st1 = returned st2 ->
    returned (fold_left (fun st r => analyze_result r st) results st1)
    = returned (fold_left (fun st r => analyze_result r st)
                          (filter success results) st2)
    /\ logged_errors (fold_left (fun st r => analyze_result r st) results st1)
       = logged_errors st1
         ++ map (fun r => (pipeline_id r, error r))
                (filter (fun r => negb (success r)) results).
Proof.
  induction results as [|r results IH]; intros st1 st2 H; simpl.
  - split; [exact H | now rewrite app_nil_r].
  - destruct (success r) eqn:Hs; simpl.
    + destruct (IH (analyze_result r st1) (analyze_result r st2)) as [H1 H2].
      { unfold analyze_result. rewrite Hs. simpl.
        now apply fold_groups_returned. }
      split; [exact H1|]. rewrite H2. f_equal.
      unfold analyze_result. rewrite Hs. simpl. apply fold_groups_logged.
    + destruct (IH (analyze_result r st1) st2) as [H1 H2].
      { unfold analyze_result. rewrite Hs. simpl. exact H. }
      split; [exact H1|]. rewrite H2.
      unfold analyze_result. rewrite Hs. simpl.
      now rewrite <- app_assoc.
Qed.

(** C7, as the code has it. Every failed per-pipeline result is reported,
    with its pipeline id and its error, through the error log, in the order
    of the results; its jobs take no part in classification and
    aggregation, and the reduction goes on with the other results; the
    value returned to the caller is the pair [(job_stats, flakey_details)]
    computed from the successful results alone: it holds no list of the
    skipped pipelines. *)
Theorem failed_pipelines_are_logged_and_left_out
  (results : list PipelineResult) :
  returned (analyze_results results)
  = returned (analyze_results (filter success results))
  /\ logged_errors (analyze_results results)
     = map (fun r => (pipeline_id r, error r))
           (filter (fun r => negb (success r)) results).
Proof.
  unfold analyze_results.
  destruct (analyze_results_from results initial initial eq_refl) as [H1 H2].
  split; [exact H1 | exact H2].
Qed.

(** C7 as stated fails: the batch of pipelines 101 and 103, where the
    collection of 103 fails, returns the very value the batch of pipeline
    101 alone returns; no function of the returned value tells which
    pipelines were skipped. *)
Lemma skipped_pipelines_are_not_returned :
  pipeline_results 5 Examples.batch_env [0%nat; 1%nat] "64459882"
    Examples.batch
  = Some [Examples.result_101;
          mkResult 103 Examples.pipeline_103 [] false (Some (HTTPError 404))]
  /\ analyze_flakiness_vs_legitimate_failures 5 Examples.batch_env
       [0%nat; 1%nat] "64459882" Examples.batch
     = analyze_flakiness_vs_legitimate_failures 5 Examples.batch_env
         [0%nat] "64459882" [Examples.pipeline_101]
  /\ ~ (exists skipped : Dict JobStats * list FlakeyDetail -> list Z,
          forall results,
            skipped (returned (analyze_results results))
            = map pipeline_id (filter (fun r => negb (success r)) results)).
Proof.
  split; [reflexivity|]. split; [reflexivity|].
  intros [skipped H].
  pose proof (H [Examples.result_101; Examples.result_103]) as H1.
  pose proof (H [Examples.result_101]) as H2.
  change (returned (analyze_results [Examples.result_101; Examples.result_103]))
    with (returned (analyze_results [Examples.result_101])) in H1.
  rewrite H2 in H1. discriminate H1.
Qed.

(* ----------------------------------------------------------------- *)
(** ** The scenario of the specification *)

Lemma flaky_group_is_recorded_witness :
  In "failed" (map job_status Examples.jobs_101)
  /\ In "success" (map job_status Examples.jobs_101)
  /\ verdict (sort_by_id Examples.jobs_101) = Flaky
  /\ flakey_retry_attempts
       (dict_get default_stats "unit-tests"
          (job_stats (analyze_group Examples.pipeline_101 101 "unit-tests"
                        Examples.jobs_101 initial)))
     = 2
  /\ flakey_details (analyze_group Examples.pipeline_101 101 "unit-tests"
                       Examples.jobs_101 initial)
     = [mkDetail 101 "main" "unit-tests" 3 ["failed"; "failed"; "success"]].
Proof.
  assert (Hf : In "failed" (map job_status Examples.jobs_101))
    by (simpl; auto).
  assert (Hs : In "success" (map job_status Examples.jobs_101))
    by (simpl; auto).
  pose proof (flaky_group_is_recorded Examples.pipeline_101 101 "unit-tests"
                Examples.jobs_101 initial Hf Hs) as H.
  split; [exact Hf|]. split; [exact Hs|].
  split; [exact (proj1 H)|].
  split; [exact (proj1 (proj2 H))|].
  exact (proj2 (proj2 (proj2 (proj2 H)))).
Defined.

Lemma legitimate_failure_group_is_recorded_witness :
  In "failed" (map job_status Examples.jobs_102)
  /\ ~ In "success" (map job_status Examples.jobs_102)
  /\ verdict (sort_by_id Examples.jobs_102) = LegitimateFailure
  /\ counts_at "lint"
       (job_stats (analyze_group Examples.pipeline_102 102 "lint"
                     Examples.jobs_102 initial))
     = mkCounts 1 0 1 0 0 0 0 0.
Proof.
  assert (Hf : In "failed" (map job_status Examples.jobs_102))
    by (simpl; auto).
  assert (Hs : ~ In "success" (map job_status Examples.jobs_102)).
  { simpl. intros [H | []]. discriminate H. }
  pose proof (legitimate_failure_group_is_recorded Examples.pipeline_102 102
                "lint" Examples.jobs_102 initial Hf Hs) as H.
  split; [exact Hf|]. split; [exact Hs|].
  split; [exact (proj1 H)|].
  exact (proj1 (proj2 (proj2 H))).
Defined.

Lemma verdict_depends_on_status_multiset_witness :
  Permutation (map job_status Examples.jobs_101)
              (map job_status (rev Examples.jobs_101))
  /\ verdict (sort_by_id Examples.jobs_101)
     = verdict (sort_by_id (rev Examples.jobs_101)).
Proof.
  assert (HP : Permutation (map job_status Examples.jobs_101)
                           (map job_status (rev Examples.jobs_101)))
    by (apply Permutation_map, Permutation_rev).
  split; [exact HP|].
  exact (proj1 (verdict_depends_on_status_multiset Examples.pipeline_101 101
                  "unit-tests" Examples.jobs_101 (rev Examples.jobs_101)
                  initial HP)).
Defined.

(** The whole scenario: one flaky group, one legitimate failure, two groups
    in all, a flakiness rate of 50 %. *)
Example scenario_totals :
  totals (job_stats (analyze_results
                       [Examples.result_101; Examples.result_102]))
  = mkCounts 2 1 1 0 0 2 2 0
  /\ (forall q,
        Report.flakiness_rate
          (job_stats (analyze_results
                        [Examples.result_101; Examples.result_102]))
        = Some q -> (q == 50)%Q).
Proof.
  split; [reflexivity|].
  intros q [= <-]. reflexivity.
Qed.

(** The completion order of the tasks does not change the counters of the
    analysis. *)
Corollary analysis_independent_of_completion_order (fuel : nat)
  (env : nat -> Server Job) (order order' : list nat) (project_id : string)
  (pipelines : list Pipeline) (results results' : list PipelineResult) :
  Permutation order order' ->
  pipeline_results fuel env order project_id pipelines = Some results ->
  pipeline_results fuel env order' project_id pipelines = Some results' ->
  totals (job_stats (analyze_results results))
  = totals (job_stats (analyze_results results'))
  /\ forall name,
       counts_at name (job_stats (analyze_results results))
       = counts_at name (job_stats (analyze_results results')).
Proof.
  intros HP H1 H2.
  assert (Hperm : Permutation results results').
  { unfold pipeline_results in *.
    rewrite (drain_map (mkResult 0 (mkPipeline 0 None) [] false None) _ _ _ H1).
    rewrite (drain_map (mkResult 0 (mkPipeline 0 None) [] false None) _ _ _ H2).
    now apply Permutation_map. }
  split.
  - now apply totals_permutation.
  - intros name. now apply counts_at_permutation.
Qed.

(* ================================================================= *)
(** * Further properties of the script *)

(* ----------------------------------------------------------------- *)
(** ** The fetcher: bounds, exhaustion, what is returned *)

Lemma exception_of_not_max {A} (o : GetOutcome A) (e : RequestException) :
  exception_of o = Some e -> e <> MaxRetriesExceeded.
Proof.
  destruct o as [r|msg]; simpl.
  - destruct (status_code r =? 429); [discriminate|].
    unfold raise_for_status.
    destruct ((400 <=? status_code r) && (status_code r <? 600));
      [|discriminate].
    intros [= <-]. discriminate.
  - intros [= <-]. discriminate.
Qed.

Lemma requests_sent_time_sleep (d : Z) (c : Client) :
  requests_sent (time_sleep d c) = requests_sent c.
Proof. reflexivity. Qed.

Lemma slept_time_sleep (d : Z) (c : Client) :
  slept (time_sleep d c) = slept c ++ [d].
Proof. reflexivity. Qed.

Section AttemptCases.

Context {A : Type}.
Variable attempts : nat.
Variable backoff : Z.
Variable srv : Server A.
Variable req : Request.

(** The four ways one iteration of the loop can go. *)
Lemma for_attempt_step (i : nat) (range : list nat) (c : Client) :
  (exists r,
     srv (requests_sent c) req = Responded r /\ status_code r = 429
     /\ for_attempt attempts backoff srv req (i :: range) c
        = for_attempt attempts backoff srv req range
            (time_sleep (retry_after_seconds r)
                        (after_get (srv (requests_sent c) req) c)))
  \/ (exists e,
        exception_of (srv (requests_sent c) req) = Some e
        /\ (Z.of_nat i < Z.of_nat attempts - 1)
        /\ for_attempt attempts backoff srv req (i :: range) c
           = for_attempt attempts backoff srv req range
               (time_sleep (backoff ^ Z.of_nat i)
                           (after_get (srv (requests_sent c) req) c)))
  \/ (exists e,
        exception_of (srv (requests_sent c) req) = Some e
        /\ (Z.of_nat attempts - 1 <= Z.of_nat i)
        /\ for_attempt attempts backoff srv req (i :: range) c
           = (Raise e, after_get (srv (requests_sent c) req) c))
  \/ (exists r,
        srv (requests_sent c) req = Responded r
        /\ exception_of (Responded r) = None /\ status_code r <> 429
        /\ for_attempt attempts backoff srv req (i :: range) c
           = (Return r, after_get (srv (requests_sent c) req) c)).
Proof.
  destruct (srv (requests_sent c) req) as [r|msg] eqn:Ho.
  - destruct (Z.eq_dec (status_code r) 429) as [Hs|Hs].
    + left. exists r. repeat split; auto.
      rewrite <- Ho. now apply for_attempt_rate_limited.
    + destruct (exception_of (Responded r)) as [e|] eqn:He.
      * right.
        pose proof (for_attempt_exception attempts backoff srv req i range c e)
          as H. rewrite Ho in H. specialize (H He).
        destruct (Z.of_nat i <? Z.of_nat attempts - 1) eqn:E.
        -- left. exists e. apply Z.ltb_lt in E. auto.
        -- right. left. exists e. apply Z.ltb_ge in E. auto.
      * right. right. right. exists r. repeat split; auto.
        pose proof (for_attempt_return attempts backoff srv req i range c r)
          as H. rewrite Ho in H. now apply H.
  - right.
    pose proof (for_attempt_exception attempts backoff srv req i range c
                  (NetworkError msg)) as H.
    rewrite Ho in H. specialize (H eq_refl).
    destruct (Z.of_nat i <? Z.of_nat attempts - 1) eqn:E.
    + left. exists (NetworkError msg). apply Z.ltb_lt in E. auto.
    + right. left. exists (NetworkError msg). apply Z.ltb_ge in E. auto.
Qed.

(** Whatever the server does, a run of the loop sends at most one request
    per iteration and sleeps at most once per iteration. *)
Lemma for_attempt_effects (range : list nat) :
  forall c,
    (requests_sent c <= requests_sent
                          (snd (for_attempt attempts backoff srv req range c))
     <= requests_sent c + List.length range)%nat
    /\ (range <> [] ->
        (requests_sent c + 1 <= requests_sent
           (snd (for_attempt attempts backoff srv req range c)))%nat)
    /\ exists extra,
         slept (snd (for_attempt attempts backoff srv req range c))
         = slept c ++ extra
         /\ (List.length extra <= List.length range)%nat
         /\ (0 <= backoff -> Forall (fun d => 0 <= d) extra).
Proof.
  induction range as [|i range IH]; intros c.
  - simpl. split; [lia|]. split; [congruence|].
    exists []. rewrite app_nil_r. repeat split; auto.
  - pose proof (requests_sent_after_get (srv (requests_sent c) req) c) as Hsent.
    pose proof (slept_after_get (srv (requests_sent c) req) c) as Hslept.
    destruct (for_attempt_step i range c)
      as [[r [Ho [Hs ->]]] | [[e [He [Hi ->]]] | [[e [He [Hi ->]]]
          | [r [Ho [He [Hs ->]]]]]]].
    + destruct (IH (time_sleep (retry_after_seconds r)
                      (after_get (srv (requests_sent c) req) c)))
        as [H1 [_ [extra [H3 [H4 H5]]]]].
      simpl requests_sent in H1. simpl slept in H3.
      rewrite Hsent in H1. rewrite Hslept in H3.
      split; [simpl List.length; lia|]. split; [intros _; lia|].
      exists (retry_after_seconds r :: extra).
      rewrite H3, <- app_assoc. split; [reflexivity|].
      split; [simpl; lia|].
      intros Hb. constructor; [|now apply H5].
      unfold retry_after_seconds. destruct (hdr_retry_after r); lia.
    + destruct (IH (time_sleep (backoff ^ Z.of_nat i)
                      (after_get (srv (requests_sent c) req) c)))
        as [H1 [_ [extra [H3 [H4 H5]]]]].
      simpl requests_sent in H1. simpl slept in H3.
      rewrite Hsent in H1. rewrite Hslept in H3.
      split; [simpl List.length; lia|]. split; [intros _; lia|].
      exists (backoff ^ Z.of_nat i :: extra).
      rewrite H3, <- app_assoc. split; [reflexivity|].
      split; [simpl; lia|].
      intros Hb. constructor; [|now apply H5].
      apply Z.pow_nonneg. exact Hb.
    + simpl snd. rewrite Hsent, Hslept.
      split; [simpl List.length; lia|]. split; [intros _; lia|].
      exists []. rewrite app_nil_r. repeat split; auto. simpl. lia.
    + simpl snd. rewrite Hsent, Hslept.
      split; [simpl List.length; lia|]. split; [intros _; lia|].
      exists []. rewrite app_nil_r. repeat split; auto. simpl. lia.
Qed.

(** A response that is returned answers the last request sent and passes
    both tests of the loop. *)
Lemma for_attempt_returned (range : list nat) (r : Response A) :
  forall c,
    fst (for_attempt attempts backoff srv req range c) = Return r ->
    exception_of (Responded r) = None
    /\ status_code r <> 429
    /\ exists k,
         requests_sent (snd (for_attempt attempts backoff srv req range c))
         = S k
         /\ srv k req = Responded r.
Proof.
  induction range as [|i range IH]; intros c.
  - simpl. discriminate.
  - pose proof (requests_sent_after_get (srv (requests_sent c) req) c) as Hsent.
    destruct (for_attempt_step i range c)
      as [[r' [Ho [Hs ->]]] | [[e [He [Hi ->]]] | [[e [He [Hi ->]]]
          | [r' [Ho [He [Hs ->]]]]]]].
    + apply IH.
    + apply IH.
    + simpl. discriminate.
    + simpl. intros [= <-]. repeat split; auto.
      exists (requests_sent c). split; [exact Hsent | exact Ho].
Qed.

(** "Max retries exceeded" comes out of the full loop only when the last
    attempt was answered 429. *)
Lemma for_attempt_max_retries (n : nat) :
  forall a c,
    (a + n = attempts)%nat -> (1 <= n)%nat ->
    fst (for_attempt attempts backoff srv req (seq a n) c)
    = Raise MaxRetriesExceeded ->
    requests_sent (snd (for_attempt attempts backoff srv req (seq a n) c))
    = (requests_sent c + n)%nat
    /\ exists r,
         srv (requests_sent c + n - 1)%nat req = Responded r
         /\ status_code r = 429.
Proof.
  induction n as [|n IH]; intros a c Ha Hn; [lia|].
  pose proof (requests_sent_after_get (srv (requests_sent c) req) c) as Hsent.
  change (seq a (S n)) with (a :: seq (S a) n).
  destruct (for_attempt_step a (seq (S a) n) c)
    as [[r [Ho [Hs ->]]] | [[e [He [Hi ->]]] | [[e [He [Hi ->]]]
        | [r [Ho [He [Hs ->]]]]]]].
  - destruct n as [|n].
    + simpl. intros _. rewrite Hsent. split; [lia|].
      exists r. replace (requests_sent c + 1 - 1)%nat with (requests_sent c)
        by lia. auto.
    + intros H. apply IH in H; [|lia|lia].
      rewrite requests_sent_time_sleep, Hsent in H.
      destruct H as [H1 [r' [H2 H3]]]. split; [lia|].
      exists r'. split; [|exact H3].
      replace (requests_sent c + S (S n) - 1)%nat
        with (S (requests_sent c) + S n - 1)%nat by lia. exact H2.
  - destruct n as [|n]; [lia|].
    intros H. apply IH in H; [|lia|lia].
    rewrite requests_sent_time_sleep, Hsent in H.
    destruct H as [H1 [r' [H2 H3]]]. split; [lia|].
    exists r'. split; [|exact H3].
    replace (requests_sent c + S (S n) - 1)%nat
      with (S (requests_sent c) + S n - 1)%nat by lia. exact H2.
  - simpl. intros [= ->]. now apply exception_of_not_max in He.
  - simpl. discriminate.
Qed.

(** Every attempt but the last fails, and so does the last. *)
Lemma for_attempt_all_fail (e : RequestException) (n : nat) :
  forall a c,
    (a + S n = attempts)%nat ->
    (forall k, (k < n)%nat ->
               exists e', exception_of (srv (requests_sent c + k)%nat req)
                          = Some e') ->
    exception_of (srv (requests_sent c + n)%nat req) = Some e ->
    let out := for_attempt attempts backoff srv req (seq a (S n)) c in
    fst out = Raise e
    /\ requests_sent (snd out) = (requests_sent c + S n)%nat
    /\ slept (snd out)
       = slept c ++ map (fun i => backoff ^ Z.of_nat i) (seq a n).
Proof.
  induction n as [|n IH]; intros a c Ha Hfail Hlast out; subst out.
  - rewrite Nat.add_0_r in Hlast. cbn [seq].
    rewrite (for_attempt_exception attempts backoff srv req a [] c e Hlast).
    replace (Z.of_nat a <? Z.of_nat attempts - 1) with false
      by (symmetry; apply Z.ltb_ge; lia).
    cbn [fst snd map seq].
    rewrite requests_sent_after_get, slept_after_get, app_nil_r.
    repeat split; lia.
  - destruct (Hfail 0%nat) as [e0 He0]; [lia|].
    rewrite Nat.add_0_r in He0.
    change (seq a (S (S n))) with (a :: seq (S a) (S n)).
    rewrite (for_attempt_exception attempts backoff srv req a _ c e0 He0).
    replace (Z.of_nat a <? Z.of_nat attempts - 1) with true
      by (symmetry; apply Z.ltb_lt; lia).
    set (c' := time_sleep (backoff ^ Z.of_nat a)
                          (after_get (srv (requests_sent c) req) c)).
    assert (Hsent : requests_sent c' = S (requests_sent c)).
    { unfold c'. simpl. apply requests_sent_after_get. }
    assert (Hslept : slept c' = slept c ++ [backoff ^ Z.of_nat a]).
    { unfold c'. simpl. now rewrite slept_after_get. }
    destruct (IH (S a) c') as [H1 [H2 H3]].
    + lia.
    + intros k Hk. rewrite Hsent.
      replace (S (requests_sent c) + k)%nat
        with (requests_sent c + S k)%nat by lia.
      apply Hfail. lia.
    + rewrite Hsent.
      replace (S (requests_sent c) + n)%nat
        with (requests_sent c + S n)%nat by lia.
      exact Hlast.
    + rewrite H1, H2, H3, Hsent, Hslept.
      repeat split; [lia|].
      rewrite <- app_assoc. reflexivity.
Qed.

(** The rate-limit globals and the sleeps of the past decide nothing. *)
Lemma for_attempt_telemetry (range : list nat) :
  forall c1 c2,
    requests_sent c1 = requests_sent c2 ->
    fst (for_attempt attempts backoff srv req range c1)
    = fst (for_attempt attempts backoff srv req range c2)
    /\ requests_sent (snd (for_attempt attempts backoff srv req range c1))
       = requests_sent (snd (for_attempt attempts backoff srv req range c2))
    /\ exists extra,
         slept (snd (for_attempt attempts backoff srv req range c1))
         = slept c1 ++ extra
         /\ slept (snd (for_attempt attempts backoff srv req range c2))
            = slept c2 ++ extra.
Proof.
  induction range as [|i range IH]; intros c1 c2 Hc.
  - simpl. repeat split; auto. exists []. now rewrite !app_nil_r.
  - pose proof (requests_sent_after_get (srv (requests_sent c1) req) c1) as Hs1.
    pose proof (requests_sent_after_get (srv (requests_sent c1) req) c2) as Hs2.
    pose proof (slept_after_get (srv (requests_sent c1) req) c1) as Hl1.
    pose proof (slept_after_get (srv (requests_sent c1) req) c2) as Hl2.
    destruct (for_attempt_step i range c1)
      as [[r [Ho [Hs H1]]] | [[e [He [Hi H1]]] | [[e [He [Hi H1]]]
          | [r [Ho [He [Hs H1]]]]]]];
      rewrite H1; clear H1.
    + rewrite (for_attempt_rate_limited attempts backoff srv req i range c2 r)
        by (rewrite <- ?Hc; auto).
      rewrite <- Hc.
      destruct (IH (time_sleep (retry_after_seconds r)
                      (after_get (srv (requests_sent c1) req) c1))
                   (time_sleep (retry_after_seconds r)
                      (after_get (srv (requests_sent c1) req) c2)))
        as [H1 [H2 [extra [H3 H4]]]].
      { simpl. now rewrite Hs1, Hs2, Hc. }
      split; [exact H1|]. split; [exact H2|].
      exists (retry_after_seconds r :: extra).
      rewrite H3, H4. simpl slept. rewrite Hl1, Hl2, <- !app_assoc.
      split; reflexivity.
    + rewrite (for_attempt_exception attempts backoff srv req i range c2 e)
        by (rewrite <- ?Hc; auto).
      replace (Z.of_nat i <? Z.of_nat attempts - 1) with true
        by (symmetry; now apply Z.ltb_lt).
      rewrite <- Hc.
      destruct (IH (time_sleep (backoff ^ Z.of_nat i)
                      (after_get (srv (requests_sent c1) req) c1))
                   (time_sleep (backoff ^ Z.of_nat i)
                      (after_get (srv (requests_sent c1) req) c2)))
        as [H1 [H2 [extra [H3 H4]]]].
      { simpl. now rewrite Hs1, Hs2, Hc. }
      split; [exact H1|]. split; [exact H2|].
      exists (backoff ^ Z.of_nat i :: extra).
      rewrite H3, H4. simpl slept. rewrite Hl1, Hl2, <- !app_assoc.
      split; reflexivity.
    + rewrite (for_attempt_exception attempts backoff srv req i range c2 e)
        by (rewrite <- ?Hc; auto).
      replace (Z.of_nat i <? Z.of_nat attempts - 1) with false
        by (symmetry; now apply Z.ltb_ge).
      rewrite <- Hc. simpl. rewrite Hs1, Hs2, Hl1, Hl2, Hc.
      repeat split; auto. exists []. now rewrite !app_nil_r.
    + rewrite (for_attempt_return attempts backoff srv req i range c2 r)
        by (rewrite <- ?Hc; auto).
      rewrite <- Hc. simpl. rewrite Hs1, Hs2, Hl1, Hl2, Hc.
      repeat split; auto. exists []. now rewrite !app_nil_r.
Qed.

End AttemptCases.

(** X1. When every attempt of the budget ends with a [RequestException]
    (a network error, or a 4xx/5xx status other than 429), the fetch raises
    the exception of the last attempt, after [attempts] requests and the
    sleeps [backoff ^ 0 .. backoff ^ (attempts - 2)]: there is no sleep
    after the last attempt. *)
Theorem exhausted_budget_raises_last_error {A : Type} (attempts : nat)
  (backoff : Z) (srv : Server A) (req : Request) (c : Client)
  (e : RequestException) :
  (1 <= attempts)%nat ->
  (forall k, (k < attempts - 1)%nat ->
             exists e', exception_of (srv (requests_sent c + k)%nat req)
                        = Some e') ->
  exception_of (srv (requests_sent c + (attempts - 1))%nat req) = Some e ->
  let out := request_with_retry attempts backoff srv req c in
  fst out = Raise e
  /\ requests_sent (snd out) = (requests_sent c + attempts)%nat
  /\ slept (snd out)
     = slept c ++ map (fun i => backoff ^ Z.of_nat i) (seq 0 (attempts - 1)).
Proof.
  intros Hpos Hfail Hlast. unfold request_with_retry.
  destruct attempts as [|n]; [lia|].
  replace (S n - 1)%nat with n in * by lia.
  apply (for_attempt_all_fail (S n) backoff srv req e n 0%nat c); auto.
Qed.

Lemma exhausted_budget_raises_last_error_witness :
  fst (make_api_request_with_retry Examples.server_404 Examples.some_request
         new_client)
  = Raise (HTTPError 404)
  /\ slept (snd (make_api_request_with_retry Examples.server_404
                   Examples.some_request new_client))
     = [1; 2].
Proof.
  pose proof (exhausted_budget_raises_last_error RETRY_ATTEMPTS RETRY_BACKOFF
                Examples.server_404 Examples.some_request new_client
                (HTTPError 404) (le_S _ _ (le_S _ _ (le_n 1)))
                (fun k _ => ex_intro _ (HTTPError 404) eq_refl) eq_refl) as H.
  split; [exact (proj1 H) | exact (proj2 (proj2 H))].
Defined.

(** X2. Whatever the server answers, one call of
    [make_api_request_with_retry] sends at least one and at most
    [RETRY_ATTEMPTS] requests, sleeps at most [RETRY_ATTEMPTS] times, and
    never asks [time.sleep] for a negative duration. *)
Theorem fetch_stays_within_budget {A : Type} (srv : Server A) (req : Request)
  (c : Client) :
  let out := make_api_request_with_retry srv req c in
  (requests_sent c + 1 <= requests_sent (snd out)
   <= requests_sent c + RETRY_ATTEMPTS)%nat
  /\ exists extra,
       slept (snd out) = slept c ++ extra
       /\ (List.length extra <= RETRY_ATTEMPTS)%nat
       /\ Forall (fun d => 0 <= d) extra.
Proof.
  unfold make_api_request_with_retry, request_with_retry.
  destruct (for_attempt_effects RETRY_ATTEMPTS RETRY_BACKOFF srv req
              (seq 0 RETRY_ATTEMPTS) c) as [H1 [H2 [extra [H3 [H4 H5]]]]].
  rewrite length_seq in *.
  split.
  - split; [apply H2; discriminate | apply H1].
  - exists extra. repeat split; auto. apply H5. unfold RETRY_BACKOFF. lia.
Qed.

(** X3. A response that [make_api_request_with_retry] returns is the answer
    to the last request it sent; its status is not 429 and is outside
    400..599. *)
Theorem returned_response_passed_the_checks {A : Type} (srv : Server A)
  (req : Request) (c : Client) (r : Response A) :
  fst (make_api_request_with_retry srv req c) = Return r ->
  status_code r <> 429
  /\ ~ (400 <= status_code r < 600)
  /\ exists k,
       requests_sent (snd (make_api_request_with_retry srv req c)) = S k
       /\ srv k req = Responded r.
Proof.
  intros H.
  destruct (for_attempt_returned RETRY_ATTEMPTS RETRY_BACKOFF srv req
              (seq 0 RETRY_ATTEMPTS) r c H) as [He [Hs Hk]].
  split; [exact Hs|]. split; [|exact Hk].
  simpl in He. apply Z.eqb_neq in Hs. rewrite Hs in He.
  unfold raise_for_status in He.
  destruct ((400 <=? status_code r) && (status_code r <? 600)) eqn:E;
    [discriminate|].
  intros [H1 H2]. apply Z.leb_le in H1. apply Z.ltb_lt in H2.
  now rewrite H1, H2 in E.
Qed.

Lemma returned_response_passed_the_checks_witness :
  fst (make_api_request_with_retry Examples.server_two_failures
         Examples.some_request new_client)
  = Return (Examples.page Examples.jobs_102 None)
  /\ exists k,
       requests_sent (snd (make_api_request_with_retry
                             Examples.server_two_failures
                             Examples.some_request new_client)) = S k
       /\ Examples.server_two_failures k Examples.some_request
          = Responded (Examples.page Examples.jobs_102 None).
Proof.
  split; [reflexivity|].
  exact (proj2 (proj2 (returned_response_passed_the_checks
                         Examples.server_two_failures Examples.some_request
                         new_client (Examples.page Examples.jobs_102 None)
                         eq_refl))).
Defined.

(** X4. [make_api_request_with_retry] ends with "Max retries exceeded" only
    after it has used its whole budget and its last request was answered
    429: an error of any other kind on the last attempt is raised as it
    is. *)
Theorem max_retries_only_after_rate_limit {A : Type} (srv : Server A)
  (req : Request) (c : Client) :
  fst (make_api_request_with_retry srv req c) = Raise MaxRetriesExceeded ->
  requests_sent (snd (make_api_request_with_retry srv req c))
  = (requests_sent c + RETRY_ATTEMPTS)%nat
  /\ exists r,
       srv (requests_sent c + RETRY_ATTEMPTS - 1)%nat req = Responded r
       /\ status_code r = 429.
Proof.
  intros H.
  apply (for_attempt_max_retries RETRY_ATTEMPTS RETRY_BACKOFF srv req
           RETRY_ATTEMPTS 0%nat c); auto.
  unfold RETRY_ATTEMPTS. lia.
Qed.

Lemma max_retries_only_after_rate_limit_witness :
  fst (make_api_request_with_retry Examples.server_429_thrice
         Examples.some_request new_client) = Raise MaxRetriesExceeded
  /\ exists r,
       Examples.server_429_thrice 2%nat Examples.some_request = Responded r
       /\ status_code r = 429.
Proof.
  split; [reflexivity|].
  exact (proj2 (max_retries_only_after_rate_limit Examples.server_429_thrice
                  Examples.some_request new_client eq_refl)).
Defined.

(** X5. The rate-limit globals and the sleeps of the past never steer a
    fetch: from two client states that have sent the same number of
    requests, the fetch ends the same way, after the same requests and the
    same new sleeps. *)
Theorem fetch_ignores_rate_limit_state {A : Type} (srv : Server A)
  (req : Request) (c1 c2 : Client) :
  requests_sent c1 = requests_sent c2 ->
  fst (make_api_request_with_retry srv req c1)
  = fst (make_api_request_with_retry srv req c2)
  /\ requests_sent (snd (make_api_request_with_retry srv req c1))
     = requests_sent (snd (make_api_request_with_retry srv req c2))
  /\ exists extra,
       slept (snd (make_api_request_with_retry srv req c1))
       = slept c1 ++ extra
       /\ slept (snd (make_api_request_with_retry srv req c2))
          = slept c2 ++ extra.
Proof.
  intros H. now apply for_attempt_telemetry.
Qed.

Lemma fetch_ignores_rate_limit_state_witness :
  fst (make_api_request_with_retry Examples.server_404_once
         Examples.some_request new_client)
  = fst (make_api_request_with_retry Examples.server_404_once
           Examples.some_request (mkClient 0 [60] (Some 3) (Some 1700000000))).
Proof.
  exact (proj1 (fetch_ignores_rate_limit_state Examples.server_404_once
                  Examples.some_request new_client
                  (mkClient 0 [60] (Some 3) (Some 1700000000)) eq_refl)).
Defined.

(* ----------------------------------------------------------------- *)
(** ** The paginator: complete collections, lost collections *)

Import Pages.

Lemma first_attempt_success {A : Type} (srv : Server A) (req : Request)
  (c : Client) (r : Response A) :
  srv (requests_sent c) req = Responded r ->
  successful r = true ->
  make_api_request_with_retry srv req c
  = (Return r, after_get (Responded r) c).
Proof.
  intros Ho Hok.
  destruct (successful_no_exception r Hok) as [He Hs].
  unfold make_api_request_with_retry, request_with_retry.
  change (seq 0 RETRY_ATTEMPTS) with (0%nat :: seq 1 2).
  rewrite (for_attempt_return RETRY_ATTEMPTS RETRY_BACKOFF srv req 0%nat _ c r
             Ho He Hs).
  now rewrite Ho.
Qed.

Lemma params_after_none {A : Type} (pages : list (Response A)) :
  params_after None pages = None.
Proof. now destruct pages. Qed.

(** The loop walks a chain of pages, one request and one unit of fuel per
    page. *)
Lemma page_loop_chain {A : Type} (srv : Server A) (fuel : nat)
  (final : option string) (pages : list (Response A)) :
  forall (url : option string) (params : Params) (items : list A)
         (c : Client),
    chain srv (requests_sent c) url params pages final ->
    page_loop (List.length pages + fuel) srv url params items c
    = page_loop fuel srv final (params_after params pages)
        (items ++ List.concat (map json pages)) (received pages c).
Proof.
  induction pages as [|r rest IH]; intros url params items c H.
  - simpl in *. subst final. now rewrite app_nil_r.
  - destruct H as [u [-> [Hu [Ho [Hok [Hj Hrest]]]]]].
    change (List.length (r :: rest) + fuel)%nat
      with (S (List.length rest + fuel)).
    rewrite (nonempty_page_continues (List.length rest + fuel) srv u params
               items c (after_get (Responded r) c) r Hu
               (first_attempt_success srv _ c r Ho Hok) Hj).
    fold (link_header r).
    rewrite IH.
    + rewrite params_after_none. cbn [params_after map List.concat received fold_left].
      now rewrite <- app_assoc.
    + now rewrite requests_sent_after_get.
Qed.

Lemma requests_sent_received {A : Type} (pages : list (Response A)) :
  forall c, requests_sent (received pages c)
            = (requests_sent c + List.length pages)%nat.
Proof.
  induction pages as [|r rest IH]; intros c.
  - simpl. lia.
  - change (received (r :: rest) c)
      with (received rest (after_get (Responded r) c)).
    rewrite IH, (requests_sent_after_get (Responded r) c).
    simpl List.length. lia.
Qed.

Lemma fetch_pipeline_jobs_eq (fuel : nat) (srv : Server Job)
  (project_id : string) (pipeline_id : Z) (include_retried : bool)
  (c : Client) :
  fetch_pipeline_jobs fuel srv project_id pipeline_id include_retried c
  = page_loop fuel srv (Some (jobs_url project_id pipeline_id))
      (jobs_params include_retried) [] c.
Proof. reflexivity. Qed.

(** X6. Pagination is complete: when the server answers the first request
    and then every next link with a page of items, and the last page
    carries no next link, the collection is the concatenation of the pages
    in order, obtained with exactly one request per page; the query
    parameters go with the first request only. *)
Theorem pagination_returns_all_pages {A : Type} (srv : Server A)
  (fuel : nat) (url : string) (params : Params) (items : list A) (c : Client)
  (pages : list (Response A)) (final : option string) :
  chain srv (requests_sent c) (Some url) params pages final ->
  final = None \/ final = Some EmptyString ->
  (List.length pages <= fuel)%nat ->
  exists c',
    page_loop fuel srv (Some url) params items c
    = Some (Return (items ++ List.concat (map json pages)), c')
    /\ requests_sent c' = (requests_sent c + List.length pages)%nat.
Proof.
  intros Hchain Hfinal Hfuel.
  exists (received pages c). split; [|apply requests_sent_received].
  replace fuel with (List.length pages + (fuel - List.length pages))%nat
    by lia.
  rewrite (page_loop_chain srv _ final pages _ _ _ _ Hchain).
  destruct Hfinal as [-> | ->]; destruct (fuel - List.length pages)%nat;
    reflexivity.
Qed.

Lemma pagination_returns_all_pages_witness :
  exists c',
    fetch_pipeline_jobs 5 Cases.server_two_pages "64459882" 101 true
      new_client
    = Some (Return [mkJob 12 "unit-tests" "failed";
                    mkJob 13 "unit-tests" "success"], c')
    /\ requests_sent c' = 2%nat.
Proof.
  assert (Hchain :
    chain Cases.server_two_pages (requests_sent new_client)
      (Some (jobs_url "64459882" 101)) (jobs_params true)
      [Examples.page [mkJob 12 "unit-tests" "failed"]
         (Some (Examples.link_to "https://gitlab.com/page2"));
       Examples.page [mkJob 13 "unit-tests" "success"] None]
      None).
  { simpl. eexists. repeat split; try reflexivity; try discriminate.
    eexists. repeat split; try reflexivity; discriminate. }
  destruct (pagination_returns_all_pages Cases.server_two_pages 5 _ _ []
              new_client _ None Hchain (or_introl eq_refl)
              (le_S _ _ (le_S _ _ (le_S _ _ (le_n 2)))))
    as [c' [H1 H2]].
  exists c'. split; [exact H1 | exact H2].
Defined.

(** X7. A collection is all or nothing: when the request for a later page
    ends with a [RequestException], the pages already received are dropped
    and [fetch_pipeline_jobs_with_metadata] reports the pipeline as failed,
    with an empty job list and that exception. *)
Theorem failure_on_later_page_drops_earlier_pages (srv : Server Job)
  (fuel : nat) (project_id : string) (p : Pipeline) (c c' : Client)
  (pages : list (Response Job)) (u : string) (e : RequestException) :
  chain srv (requests_sent c) (Some (jobs_url project_id (pl_id p)))
    (jobs_params true) pages (Some u) ->
  PyStr.truthy u = true ->
  make_api_request_with_retry srv
    (mkRequest u (params_after (jobs_params true) pages)) (received pages c)
  = (Raise e, c') ->
  fetch_pipeline_jobs_with_metadata (List.length pages + S fuel) srv
    project_id p c
  = Some (mkResult (pl_id p) p [] false (Some e), c').
Proof.
  intros Hchain Hu Hfail.
  unfold fetch_pipeline_jobs_with_metadata.
  rewrite fetch_pipeline_jobs_eq.
  rewrite (page_loop_chain srv _ (Some u) pages _ _ _ _ Hchain).
  simpl. rewrite Hu. simpl. now rewrite Hfail.
Qed.

Lemma failure_on_later_page_drops_earlier_pages_witness :
  fetch_pipeline_jobs_with_metadata 2 Cases.server_page_then_500 "64459882"
    Examples.pipeline_101 new_client
  = Some (mkResult 101 Examples.pipeline_101 [] false (Some (HTTPError 500)),
          mkClient 4 [1; 2] None None).
Proof.
  assert (Hchain :
    chain Cases.server_page_then_500 (requests_sent new_client)
      (Some (jobs_url "64459882" (pl_id Examples.pipeline_101)))
      (jobs_params true)
      [Examples.page [mkJob 12 "unit-tests" "failed"]
         (Some (Examples.link_to "https://gitlab.com/page2"))]
      (Some "https://gitlab.com/page2")).
  { simpl. eexists. repeat split; try reflexivity; discriminate. }
  exact (failure_on_later_page_drops_earlier_pages Cases.server_page_then_500
           1 "64459882" Examples.pipeline_101 new_client
           (mkClient 4 [1; 2] None None) _ "https://gitlab.com/page2"
           (HTTPError 500) Hchain eq_refl eq_refl).
Defined.

(* ----------------------------------------------------------------- *)
(** ** The [Link] header *)

Lemma find_ge (c : ascii) (s : string) : -1 <= PyStr.find c s.
Proof.
  induction s as [|d s IH]; simpl; [lia|].
  destruct (Ascii.eqb d c); [lia|].
  destruct (PyStr.find c s <? 0) eqn:E; [lia|].
  apply Z.ltb_ge in E. lia.
Qed.

Lemma find_absent_cons (c d : ascii) (s : string) :
  PyStr.find c (String d s) = -1 ->
  Ascii.eqb d c = false /\ PyStr.find c s = -1.
Proof.
  simpl. destruct (Ascii.eqb d c); [discriminate|].
  destruct (PyStr.find c s <? 0) eqn:E; intros H.
  - apply Z.ltb_lt in E. pose proof (find_ge c s). split; [reflexivity | lia].
  - apply Z.ltb_ge in E. lia.
Qed.

Lemma find_app_absent (c : ascii) (pre s : string) :
  PyStr.find c pre = -1 ->
  PyStr.find c (String.append pre s)
  = if PyStr.find c s <? 0 then -1
    else Z.of_nat (String.length pre) + PyStr.find c s.
Proof.
  induction pre as [|d pre IH]; intros H.
  - simpl. destruct (PyStr.find c s <? 0) eqn:E; [|lia].
    apply Z.ltb_lt in E. pose proof (find_ge c s). lia.
  - apply find_absent_cons in H. destruct H as [Hd Hpre].
    cbn [String.append PyStr.find]. rewrite Hd, (IH Hpre).
    destruct (PyStr.find c s <? 0) eqn:E; [reflexivity|].
    apply Z.ltb_ge in E.
    replace (Z.of_nat (String.length pre) + PyStr.find c s <? 0) with false
      by (symmetry; apply Z.ltb_ge; lia).
    cbn [String.length]. lia.
Qed.

Lemma split_nonempty (c : ascii) (s : string) : PyStr.split c s <> [].
Proof.
  destruct s as [|d s]; simpl; [discriminate|].
  destruct (PyStr.split c s); [discriminate|].
  destruct (Ascii.eqb d c); discriminate.
Qed.

Lemma split_absent (c : ascii) (s : string) :
  PyStr.find c s = -1 -> PyStr.split c s = [s].
Proof.
  induction s as [|d s IH]; intros H; [reflexivity|].
  apply find_absent_cons in H. destruct H as [Hd Hs].
  simpl. rewrite (IH Hs), Hd. reflexivity.
Qed.

Lemma split_app (c : ascii) (s1 s2 : string) :
  PyStr.split c (String.append s1 (String c s2))
  = PyStr.split c s1 ++ PyStr.split c s2.
Proof.
  induction s1 as [|d s1 IH].
  - simpl. rewrite Ascii.eqb_refl.
    destruct (PyStr.split c s2) eqn:E; [now apply split_nonempty in E|].
    reflexivity.
  - cbn [String.append PyStr.split]. rewrite IH.
    destruct (PyStr.split c s1) as [|p ps] eqn:E;
      [now apply split_nonempty in E|].
    simpl. destruct (Ascii.eqb d c); reflexivity.
Qed.

Lemma split_join (c : ascii) (pieces : list string) :
  pieces <> [] ->
  Forall (fun piece => PyStr.find c piece = -1) pieces ->
  PyStr.split c (join c pieces) = pieces.
Proof.
  induction pieces as [|p pieces IH]; intros Hne HF; [congruence|].
  inversion HF as [|? ? Hp HF']; subst.
  destruct pieces as [|q pieces].
  - simpl. now apply split_absent.
  - change (join c (p :: q :: pieces))
      with (String.append p (String c (join c (q :: pieces)))).
    rewrite split_app, (split_absent c p Hp), IH; auto. discriminate.
Qed.

Lemma prefix_app (s t : string) : String.prefix s (String.append s t) = true.
Proof.
  induction s as [|d s IH]; simpl.
  - now destruct t.
  - destruct (Ascii.ascii_dec d d); [exact IH | congruence].
Qed.

Lemma contains_app (needle pre post : string) :
  PyStr.contains needle (String.append pre (String.append needle post)) = true.
Proof.
  induction pre as [|d pre IH].
  - simpl String.append. pose proof (prefix_app needle post) as H.
    destruct (String.append needle post); cbn [PyStr.contains];
      now rewrite H.
  - cbn [String.append PyStr.contains]. rewrite IH. apply orb_true_r.
Qed.

Lemma substring_skip (pre s : string) (n : nat) :
  String.substring (String.length pre) n (String.append pre s)
  = String.substring 0 n s.
Proof.
  induction pre as [|d pre IH]; simpl; [reflexivity | exact IH].
Qed.

Lemma substring_prefix (u t : string) :
  String.substring 0 (String.length u) (String.append u t) = u.
Proof.
  induction u as [|d u IH]; simpl.
  - now destruct t.
  - now rewrite IH.
Qed.

Lemma length_append (s t : string) :
  String.length (String.append s t)
  = (String.length s + String.length t)%nat.
Proof.
  induction s as [|d s IH]; simpl; [reflexivity | now rewrite IH].
Qed.

Lemma substring_middle (pre u t : string) (a : ascii) :
  String.substring (S (String.length pre)) (String.length u)
    (String.append pre (String a (String.append u t)))
  = u.
Proof.
  induction pre as [|d pre IH]; simpl.
  - apply substring_prefix.
  - exact IH.
Qed.

Lemma append_assoc (a b c : string) :
  String.append a (String.append b c) = String.append (String.append a b) c.
Proof. induction a as [|d a IH]; simpl; congruence. Qed.

Lemma find_first (c : ascii) (pre t : string) :
  PyStr.find c pre = -1 ->
  PyStr.find c (String.append pre (String c t)) = Z.of_nat (String.length pre).
Proof.
  intros H. rewrite (find_app_absent c pre _ H).
  cbn [PyStr.find]. rewrite Ascii.eqb_refl. simpl. lia.
Qed.

Lemma find_absent_app (c : ascii) (a b : string) :
  PyStr.find c a = -1 -> PyStr.find c b = -1 ->
  PyStr.find c (String.append a b) = -1.
Proof.
  intros Ha Hb. rewrite (find_app_absent c a _ Ha), Hb. reflexivity.
Qed.

Lemma slice_middle (pre u t : string) (a : ascii) :
  PyStr.slice (String.append pre (String a (String.append u t)))
    (Z.of_nat (String.length pre) + 1)
    (Z.of_nat (String.length pre) + 1 + Z.of_nat (String.length u))
  = u.
Proof.
  unfold PyStr.slice, PyStr.slice_bound.
  rewrite length_append. cbn [String.length]. rewrite length_append.
  set (lp := String.length pre). set (lu := String.length u).
  set (lt := String.length t).
  destruct (Z.of_nat lp + 1 <? 0) eqn:E1; [apply Z.ltb_lt in E1; lia|].
  destruct (Z.of_nat lp + 1 + Z.of_nat lu <? 0) eqn:E2;
    [apply Z.ltb_lt in E2; lia|].
  rewrite !Z.min_l by lia.
  destruct (Z.of_nat lp + 1 <? Z.of_nat lp + 1 + Z.of_nat lu) eqn:E3.
  - replace (Z.to_nat (Z.of_nat lp + 1)) with (S lp) by lia.
    replace (Z.to_nat (Z.of_nat lp + 1 + Z.of_nat lu - (Z.of_nat lp + 1)))
      with lu by lia.
    apply substring_middle.
  - apply Z.ltb_ge in E3. assert (H : lu = 0%nat) by lia.
    unfold lu in H. destruct u; [reflexivity | discriminate].
Qed.

(** The URL between the first '<' and the first '>' of a link. *)
Lemma link_url (pre u post : string) :
  PyStr.find "<"%char pre = -1 ->
  PyStr.find ">"%char pre = -1 ->
  PyStr.find ">"%char u = -1 ->
  let link := String.append pre
                (String "<"%char (String.append u (String ">"%char post))) in
  PyStr.slice link (PyStr.find "<"%char link + 1) (PyStr.find ">"%char link)
  = u.
Proof.
  intros H1 H2 H3 link. subst link.
  rewrite (find_first "<"%char pre _ H1).
  assert (Hgt : PyStr.find ">"%char
                  (String.append pre
                     (String "<"%char (String.append u (String ">"%char post))))
                = Z.of_nat (String.length pre) + 1
                  + Z.of_nat (String.length u)).
  { change (String "<"%char (String.append u (String ">"%char post)))
      with (String.append (String "<"%char u) (String ">"%char post)).
    rewrite append_assoc, find_first.
    - rewrite length_append. cbn [String.length]. lia.
    - apply find_absent_app; [exact H2|].
      cbn [PyStr.find]. change (Ascii.eqb "<" ">") with false. cbn iota.
      now rewrite H3. }
  rewrite Hgt. apply slice_middle.
Qed.

Lemma first_next_link_skip (before rest : list string) :
  Forall (fun o => PyStr.contains rel_next o = false) before ->
  first_next_link (before ++ rest) = first_next_link rest.
Proof.
  induction 1 as [|o before Ho _ IH]; simpl; [reflexivity|].
  now rewrite Ho.
Qed.

(** X8. From a [Link] header made of comma-separated links, of which the
    first that contains [rel="next"] reads [pre<u>post], the paginator
    extracts exactly [u] (no comma in a link, no angle bracket before the
    '<', no '>' in the URL); the links before and after it do not matter. *)
Theorem next_link_is_extracted (before after : list string)
  (pre u post : string) :
  let link := String.append pre
                (String "<"%char (String.append u (String ">"%char post))) in
  Forall (fun o => PyStr.find ","%char o = -1
                   /\ PyStr.contains rel_next o = false) before ->
  Forall (fun o => PyStr.find ","%char o = -1) after ->
  PyStr.find ","%char link = -1 ->
  PyStr.find "<"%char pre = -1 ->
  PyStr.find ">"%char pre = -1 ->
  PyStr.find ">"%char u = -1 ->
  PyStr.contains rel_next link = true ->
  next_url_of (join ","%char (before ++ link :: after)) = Some u.
Proof.
  intros link Hb Ha Hl H1 H2 H3 Hn. unfold next_url_of.
  rewrite split_join.
  - rewrite first_next_link_skip.
    + simpl. rewrite Hn. f_equal. now apply link_url.
    + eapply Forall_impl; [|exact Hb]. now intros o [_ H].
  - now destruct before.
  - apply Forall_app. split.
    + eapply Forall_impl; [|exact Hb]. now intros o [H _].
    + now constructor.
Qed.

Lemma next_link_is_extracted_witness :
  next_url_of
    (join ","%char
       [Cases.link_value "https://gitlab.com/api/v4/projects/1/jobs?page=1"
          "prev";
        Cases.link_value "https://gitlab.com/api/v4/projects/1/jobs?page=3"
          "next";
        Cases.link_value "https://gitlab.com/api/v4/projects/1/jobs?page=1"
          "first";
        Cases.link_value "https://gitlab.com/api/v4/projects/1/jobs?page=9"
          "last"])
  = Some "https://gitlab.com/api/v4/projects/1/jobs?page=3".
Proof.
  apply (next_link_is_extracted
           [Cases.link_value
              "https://gitlab.com/api/v4/projects/1/jobs?page=1" "prev"]
           [Cases.link_value
              "https://gitlab.com/api/v4/projects/1/jobs?page=1" "first";
            Cases.link_value
              "https://gitlab.com/api/v4/projects/1/jobs?page=9" "last"]
           " " "https://gitlab.com/api/v4/projects/1/jobs?page=3"
           (String.append "; rel="
              (String dquote (String.append "next" (String dquote EmptyString)))));
    repeat constructor.
Defined.

Lemma prefix_empty (s : string) : String.prefix EmptyString s = true.
Proof. now destruct s. Qed.

Lemma prefix_trans (a : string) :
  forall b c, String.prefix a b = true -> String.prefix b c = true ->
              String.prefix a c = true.
Proof.
  induction a as [|x a IH]; intros b c Hab Hbc; [apply prefix_empty|].
  destruct b as [|y b]; [discriminate|].
  destruct c as [|z c]; [discriminate|].
  simpl in *.
  destruct (Ascii.ascii_dec x y) as [->|]; [|discriminate].
  destruct (Ascii.ascii_dec y z) as [->|]; [|discriminate].
  eauto.
Qed.

Lemma prefix_cons (d : ascii) (p s : string) :
  String.prefix p s = true -> String.prefix (String d p) (String d s) = true.
Proof.
  intros H. simpl. destruct (Ascii.ascii_dec d d); [exact H | congruence].
Qed.

Lemma contains_cons (needle s : string) (d : ascii) :
  PyStr.contains needle s = true ->
  PyStr.contains needle (String d s) = true.
Proof.
  intros H. cbn [PyStr.contains]. rewrite H. apply orb_true_r.
Qed.

Lemma contains_of_prefix (needle p : string) :
  forall s, String.prefix p s = true ->
            PyStr.contains needle p = true ->
            PyStr.contains needle s = true.
Proof.
  induction p as [|d p IH]; intros s Hp Hc.
  - cbn [PyStr.contains] in Hc. rewrite orb_false_r in Hc.
    destruct s; cbn [PyStr.contains];
      rewrite (prefix_trans needle EmptyString _ Hc (prefix_empty _));
      reflexivity.
  - destruct s as [|y s]; [discriminate|].
    simpl in Hp. destruct (Ascii.ascii_dec d y) as [<-|]; [|discriminate].
    cbn [PyStr.contains] in Hc. apply orb_prop in Hc.
    destruct Hc as [Hc | Hc].
    + cbn [PyStr.contains].
      rewrite (prefix_trans needle (String d p) (String d s) Hc
                 (prefix_cons d p s Hp)).
      reflexivity.
    + apply contains_cons. now apply IH.
Qed.

Lemma first_piece_prefix (c : ascii) (s : string) :
  forall p ps, PyStr.split c s = p :: ps -> String.prefix p s = true.
Proof.
  induction s as [|d s IH]; intros p ps H.
  - simpl in H. injection H as <- _. reflexivity.
  - simpl in H. destruct (PyStr.split c s) as [|q qs] eqn:E;
      [now apply split_nonempty in E|].
    destruct (Ascii.eqb d c).
    + injection H as <- _. reflexivity.
    + injection H as <- _. apply prefix_cons. now apply (IH q qs).
Qed.

Lemma contains_piece (c : ascii) (needle : string) (s : string) :
  forall piece,
    In piece (PyStr.split c s) ->
    PyStr.contains needle piece = true ->
    PyStr.contains needle s = true.
Proof.
  induction s as [|d s IH]; intros piece Hin Hc.
  - simpl in Hin. destruct Hin as [<- | []]. exact Hc.
  - simpl in Hin. destruct (PyStr.split c s) as [|q qs] eqn:E;
      [now apply split_nonempty in E|].
    destruct (Ascii.eqb d c).
    + destruct Hin as [<- | Hin].
      * apply (contains_of_prefix needle EmptyString); [reflexivity | exact Hc].
      * apply contains_cons. now apply (IH piece).
    + destruct Hin as [<- | Hin].
      * apply (contains_of_prefix needle (String d q)); [|exact Hc].
        apply prefix_cons. now apply (first_piece_prefix c s q qs).
      * apply contains_cons. apply (IH piece); [now right | exact Hc].
Qed.

(** X9. A [Link] header in which [rel="next"] does not occur gives no next
    URL (so does a missing header, read as the empty string): the page that
    carries it is the last one requested. *)
Theorem no_next_relation_no_next_url (link_header : string) :
  PyStr.contains rel_next link_header = false ->
  next_url_of link_header = None.
Proof.
  intros H. unfold next_url_of.
  assert (HF : Forall (fun o => PyStr.contains rel_next o = false)
                 (PyStr.split ","%char link_header)).
  { apply Forall_forall. intros piece Hin.
    destruct (PyStr.contains rel_next piece) eqn:E; [|reflexivity].
    rewrite (contains_piece ","%char rel_next link_header piece Hin E) in H.
    discriminate. }
  rewrite <- (app_nil_r (PyStr.split ","%char link_header)).
  now rewrite first_next_link_skip.
Qed.

Lemma no_next_relation_no_next_url_witness :
  next_url_of
    (join ","%char
       [Cases.link_value "https://gitlab.com/api/v4/projects/1/jobs?page=1"
          "first";
        Cases.link_value "https://gitlab.com/api/v4/projects/1/jobs?page=9"
          "last"])
  = None.
Proof.
  apply no_next_relation_no_next_url. reflexivity.
Defined.

(* ----------------------------------------------------------------- *)
(** ** Dictionaries, once more *)

Section DictKeys.

Context {V : Type}.
Variable default : V.

Lemma dict_update_keys (key : string) (f : V -> V) (d : Dict V) (x : string) :
  In x (map fst (dict_update default key f d)) <-> x = key \/ In x (map fst d).
Proof.
  induction d as [|[k v] d IH]; simpl.
  - split; [intros [<- | []]; now left | intros [-> | []]; now left].
  - destruct (String.eqb k key) eqn:E; simpl.
    + apply String.eqb_eq in E. subst k. intuition congruence.
    + rewrite IH. intuition congruence.
Qed.

Lemma dict_update_NoDup (key : string) (f : V -> V) (d : Dict V) :
  NoDup (map fst d) -> NoDup (map fst (dict_update default key f d)).
Proof.
  induction d as [|[k v] d IH]; simpl; intros H.
  - constructor; [intros [] | constructor].
  - inversion H as [|? ? Hk Hd]; subst.
    destruct (String.eqb k key) eqn:E; simpl.
    + now constructor.
    + constructor; [|now apply IH].
      rewrite dict_update_keys. intros [-> | Hin]; [|contradiction].
      now rewrite String.eqb_refl in E.
Qed.

Lemma dict_update_Forall (P : V -> Prop) (key : string) (f : V -> V)
  (d : Dict V) :
  (forall v, P v -> P (f v)) -> P (f default) ->
  Forall (fun item => P (snd item)) d ->
  Forall (fun item => P (snd item)) (dict_update default key f d).
Proof.
  intros Hf Hd. induction 1 as [|[k v] d Hv Hrest IH]; simpl.
  - constructor; [exact Hd | constructor].
  - destruct (String.eqb k key); constructor; simpl in *; auto.
Qed.

Lemma dict_get_In (key : string) (v : V) (d : Dict V) :
  NoDup (map fst d) -> In (key, v) d -> dict_get default key d = v.
Proof.
  induction d as [|[k w] d IH]; simpl; intros HN Hin; [contradiction|].
  inversion HN as [|? ? Hk Hd]; subst.
  destruct Hin as [[= -> ->] | Hin].
  - now rewrite String.eqb_refl.
  - destruct (String.eqb k key) eqn:E; [|now apply IH].
    apply String.eqb_eq in E. subst k. exfalso. apply Hk.
    apply (in_map fst) in Hin. exact Hin.
Qed.

End DictKeys.

(* ----------------------------------------------------------------- *)
(** ** Grouping by job name *)

Import Invariants.

Lemma group_fold_get (name : string) (jobs : list Job) :
  forall d : Dict (list Job),
    dict_get [] name
      (fold_left
         (fun d' job => dict_update [] (job_name job) (fun l => l ++ [job]) d')
         jobs d)
    = dict_get [] name d ++ filter (same_name name) jobs.
Proof.
  induction jobs as [|j jobs IH]; intros d; simpl.
  - now rewrite app_nil_r.
  - rewrite IH. unfold same_name at 2.
    destruct (String.eqb (job_name j) name) eqn:E.
    + apply String.eqb_eq in E. subst name.
      now rewrite dict_get_update_same, <- app_assoc.
    + apply String.eqb_neq in E.
      rewrite dict_get_update_other; auto.
Qed.

Lemma group_fold_keys (jobs : list Job) :
  forall (d : Dict (list Job)) (x : string),
    In x (map fst
            (fold_left
               (fun d' job =>
                  dict_update [] (job_name job) (fun l => l ++ [job]) d')
               jobs d))
    <-> In x (map fst d) \/ In x (map job_name jobs).
Proof.
  induction jobs as [|j jobs IH]; intros d x; simpl.
  - tauto.
  - rewrite IH, dict_update_keys. split; intros H; intuition congruence.
Qed.

Lemma group_fold_NoDup (jobs : list Job) :
  forall d : Dict (list Job),
    NoDup (map fst d) ->
    NoDup (map fst
             (fold_left
                (fun d' job =>
                   dict_update [] (job_name job) (fun l => l ++ [job]) d')
                jobs d)).
Proof.
  induction jobs as [|j jobs IH]; intros d H; simpl; [exact H|].
  apply IH. now apply dict_update_NoDup.
Qed.

Lemma group_fold_nonempty (jobs : list Job) :
  forall d : Dict (list Job),
    Forall (fun item => snd item <> []) d ->
    Forall (fun item => snd item <> [])
      (fold_left
         (fun d' job => dict_update [] (job_name job) (fun l => l ++ [job]) d')
         jobs d).
Proof.
  induction jobs as [|j jobs IH]; intros d H; simpl; [exact H|].
  apply IH. apply (dict_update_Forall [] (fun l : list Job => l <> [])); auto.
  - intros v _ Hv. now destruct v.
  - discriminate.
Qed.

Lemma group_by_name_NoDup (jobs : list Job) :
  NoDup (map fst (group_by_name jobs)).
Proof. apply group_fold_NoDup. constructor. Qed.

Lemma group_by_name_nonempty (jobs : list Job) :
  Forall (fun item => snd item <> []) (group_by_name jobs).
Proof. apply group_fold_nonempty. constructor. Qed.

Lemma group_by_name_get (name : string) (jobs : list Job) :
  dict_get [] name (group_by_name jobs) = filter (same_name name) jobs.
Proof. unfold group_by_name. now rewrite group_fold_get. Qed.

Lemma group_by_name_keys (jobs : list Job) (x : string) :
  In x (map fst (group_by_name jobs)) <-> In x (map job_name jobs).
Proof.
  unfold group_by_name. rewrite group_fold_keys. simpl. tauto.
Qed.

Lemma grouping_partitions_jobs_by_name_facts (jobs : list Job) :
  NoDup (map fst (group_by_name jobs))
  /\ (forall name, In name (map fst (group_by_name jobs))
                   <-> In name (map job_name jobs))
  /\ (forall name group,
        In (name, group) (group_by_name jobs) ->
        group = filter (same_name name) jobs /\ group <> []).
Proof.
  split; [apply group_by_name_NoDup|].
  split; [apply group_by_name_keys|].
  intros name group Hin. split.
  - rewrite <- group_by_name_get. symmetry.
    apply dict_get_In; [apply group_by_name_NoDup | exact Hin].
  - pose proof (group_by_name_nonempty jobs) as H.
    rewrite Forall_forall in H. exact (H _ Hin).
Qed.

(** X10. Grouping is a partition of the jobs of a pipeline by name: the
    names of the groups are distinct and are exactly the names of the jobs;
    the group of a name holds all the jobs of that name and no other, in
    the order of the job list, and is never empty. *)
Theorem grouping_partitions_jobs_by_name (jobs : list Job) :
  NoDup (map fst (group_by_name jobs))
  /\ (forall name, In name (map fst (group_by_name jobs))
                   <-> In name (map job_name jobs))
  /\ (forall name group,
        In (name, group) (group_by_name jobs) ->
        group = filter (same_name name) jobs /\ group <> []).
Proof. apply grouping_partitions_jobs_by_name_facts. Qed.

(* ----------------------------------------------------------------- *)
(** ** The classifier: the other branches *)

Import Branches.

Lemma success_only_many (job_list : list Job) :
  first_try_success job_list = false ->
  status_in "success" (map job_status job_list) = true ->
  status_in "failed" (map job_status job_list) = false ->
  (Z.of_nat (List.length job_list) >? 1) = true.
Proof.
  intros Hfts Hs Hf.
  destruct job_list as [|j [|j' l]].
  - discriminate Hs.
  - exfalso. apply status_in_iff in Hs. destruct Hs as [Hs | []].
    assert (H : first_try_success [j] = true).
    { apply first_try_success_iff. cbn [map]. now rewrite Hs. }
    congruence.
  - apply Z.gtb_lt. simpl List.length. lia.
Qed.

Lemma verdict_clean (job_list : list Job) :
  In "success" (map job_status job_list) ->
  ~ In "failed" (map job_status job_list) ->
  verdict job_list = CleanSuccess.
Proof.
  intros Hs Hf. unfold verdict.
  destruct (first_try_success job_list) eqn:E; [reflexivity|].
  apply status_in_iff in Hs.
  assert (Hf' : status_in "failed" (map job_status job_list) = false).
  { destruct (status_in "failed" (map job_status job_list)) eqn:E';
      [|reflexivity]. apply status_in_iff in E'. contradiction. }
  rewrite Hs, Hf', (success_only_many job_list E Hs Hf'). reflexivity.
Qed.

Lemma verdict_other (job_list : list Job) :
  ~ In "success" (map job_status job_list) ->
  ~ In "failed" (map job_status job_list) ->
  verdict job_list = Other.
Proof.
  intros Hs Hf. unfold verdict.
  destruct (first_try_success job_list) eqn:E.
  - apply first_try_success_iff in E. rewrite E in Hs.
    exfalso. apply Hs. now left.
  - destruct (status_in "success" (map job_status job_list)) eqn:Es;
      [apply status_in_iff in Es; contradiction|].
    destruct (status_in "failed" (map job_status job_list)) eqn:Ef;
      [apply status_in_iff in Ef; contradiction|].
    reflexivity.
Qed.

Lemma verdict_flaky_inv (job_list : list Job) :
  verdict job_list = Flaky ->
  In "failed" (map job_status job_list)
  /\ In "success" (map job_status job_list).
Proof.
  unfold verdict.
  destruct (first_try_success job_list); [discriminate|].
  destruct (status_in "failed" (map job_status job_list)) eqn:Ef,
           (status_in "success" (map job_status job_list)) eqn:Es;
    simpl; try discriminate.
  - intros _. split; now apply status_in_iff.
  - destruct (Z.of_nat (List.length job_list) >? 1); discriminate.
Qed.

Lemma two_statuses_two_jobs (job_list : list Job) :
  In "failed" (map job_status job_list) ->
  In "success" (map job_status job_list) ->
  2 <= Z.of_nat (List.length job_list).
Proof.
  destruct job_list as [|j [|j' l]]; simpl.
  - intros [].
  - intros [H1 | []] [H2 | []]. congruence.
  - intros _ _. lia.
Qed.

(** X11. A group that holds a "success" and no "failed" status counts as a
    clean success whatever its size: its [n - 1] extra executions go to
    [total_retry_attempts] only, and no record is appended. *)
Theorem success_without_failure_is_clean (p : Pipeline) (pipeline_id : Z)
  (name : string) (job_list : list Job) (st : State) :
  In "success" (map job_status job_list) ->
  ~ In "failed" (map job_status job_list) ->
  let n := Z.of_nat (List.length job_list) in
  let st' := analyze_group p pipeline_id name job_list st in
  verdict (sort_by_id job_list) = CleanSuccess
  /\ counts_at name (job_stats st')
     = counts_add (counts_at name (job_stats st))
                  (mkCounts 1 0 0 1 0 (n - 1) 0 0)
  /\ flakey_details st' = flakey_details st.
Proof.
  intros Hs Hf n st'.
  assert (Hv : verdict (sort_by_id job_list) = CleanSuccess).
  { rewrite verdict_sort_by_id. now apply verdict_clean. }
  subst st'. rewrite analyze_group_eq. fold n. rewrite Hv.
  cbn [job_stats flakey_details]. unfold counts_at.
  rewrite dict_get_update_same, counts_of_entry_update.
  repeat split; reflexivity.
Qed.

Lemma success_without_failure_is_clean_witness :
  counts_at "build"
    (job_stats (analyze_group Examples.pipeline_101 101 "build"
                  [mkJob 2 "build" "success"; mkJob 1 "build" "success"]
                  initial))
  = mkCounts 1 0 0 1 0 1 0 0.
Proof.
  assert (Hs : In "success"
                 (map job_status
                    [mkJob 2 "build" "success"; mkJob 1 "build" "success"]))
    by (simpl; auto).
  assert (Hf : ~ In "failed"
                 (map job_status
                    [mkJob 2 "build" "success"; mkJob 1 "build" "success"])).
  { simpl. intros [H | [H | []]]; discriminate H. }
  exact (proj1 (proj2 (success_without_failure_is_clean Examples.pipeline_101
                         101 "build" _ initial Hs Hf))).
Defined.

(** X12. A group with neither a "success" nor a "failed" status (canceled,
    skipped, manual, running, ...) is counted under [other_statuses]; its
    [n - 1] extra executions still go to [total_retry_attempts]. *)
Theorem group_without_success_or_failure_is_other (p : Pipeline)
  (pipeline_id : Z) (name : string) (job_list : list Job) (st : State) :
  ~ In "success" (map job_status job_list) ->
  ~ In "failed" (map job_status job_list) ->
  let n := Z.of_nat (List.length job_list) in
  let st' := analyze_group p pipeline_id name job_list st in
  verdict (sort_by_id job_list) = Other
  /\ counts_at name (job_stats st')
     = counts_add (counts_at name (job_stats st))
                  (mkCounts 1 0 0 0 1 (n - 1) 0 0)
  /\ flakey_details st' = flakey_details st.
Proof.
  intros Hs Hf n st'.
  assert (Hv : verdict (sort_by_id job_list) = Other).
  { rewrite verdict_sort_by_id. now apply verdict_other. }
  subst st'. rewrite analyze_group_eq. fold n. rewrite Hv.
  cbn [job_stats flakey_details]. unfold counts_at.
  rewrite dict_get_update_same, counts_of_entry_update.
  repeat split; reflexivity.
Qed.

Lemma group_without_success_or_failure_is_other_witness :
  counts_at "deploy"
    (job_stats (analyze_group Examples.pipeline_101 101 "deploy"
                  [mkJob 5 "deploy" "canceled"; mkJob 4 "deploy" "skipped"]
                  initial))
  = mkCounts 1 0 0 0 1 1 0 0.
Proof.
  assert (Hs : ~ In "success"
                 (map job_status
                    [mkJob 5 "deploy" "canceled"; mkJob 4 "deploy" "skipped"])).
  { simpl. intros [H | [H | []]]; discriminate H. }
  assert (Hf : ~ In "failed"
                 (map job_status
                    [mkJob 5 "deploy" "canceled"; mkJob 4 "deploy" "skipped"])).
  { simpl. intros [H | [H | []]]; discriminate H. }
  exact (proj1 (proj2 (group_without_success_or_failure_is_other
                         Examples.pipeline_101 101 "deploy" _ initial Hs Hf))).
Defined.

(** X13. The last branch of the chain ("Unexpected status pattern", line
    379) is dead code: no job list reaches it, the empty list included.
    The counter incremented is the one of the branch taken. *)
Theorem unexpected_pattern_branch_is_dead (job_list : list Job) :
  branch_taken job_list <> UnexpectedPattern
  /\ verdict job_list = counted_as (branch_taken job_list).
Proof.
  unfold branch_taken, verdict.
  destruct (first_try_success job_list) eqn:E; [split; [discriminate|reflexivity]|].
  destruct (status_in "failed" (map job_status job_list)) eqn:Ef,
           (status_in "success" (map job_status job_list)) eqn:Es;
    simpl; try (split; [discriminate | reflexivity]).
  rewrite (success_only_many job_list E Es Ef).
  split; [discriminate | reflexivity].
Qed.

(* ----------------------------------------------------------------- *)
(** ** Invariants of the reduction *)

Lemma fold_left_invariant {S X : Type} (I : S -> Prop) (f : S -> X -> S)
  (l : list X) :
  forall s, I s -> (forall x s', In x l -> I s' -> I (f s' x)) ->
            I (fold_left f l s).
Proof.
  induction l as [|x l IH]; intros s Hs Hf; simpl; [exact Hs|].
  apply IH.
  - apply Hf; [now left | exact Hs].
  - intros y s' Hy. apply Hf. now right.
Qed.

(** An invariant that every group of a fetched pipeline keeps, and that does
    not look at the error log, holds of the analysis. *)
Lemma analysis_invariant (results : list PipelineResult) (I : State -> Prop) :
  I initial ->
  (forall st pid e, I st -> I (log_error pid e st)) ->
  (forall r name st,
     In r results -> success r = true ->
     In name (map job_name (jobs r)) ->
     I st ->
     I (analyze_group (pipeline r) (pipeline_id r) name
          (filter (same_name name) (jobs r)) st)) ->
  I (analyze_results results).
Proof.
  intros H0 Hlog Hgroup. unfold analyze_results.
  apply fold_left_invariant; [exact H0|].
  intros r st Hr Hst. unfold analyze_result.
  destruct (success r) eqn:Hs; simpl; [|now apply Hlog].
  apply fold_left_invariant; [exact Hst|].
  intros [name group] st' Hg Hst'. simpl.
  destruct (grouping_partitions_jobs_by_name_facts (jobs r))
    as [_ [Hkeys Hgroups]].
  destruct (Hgroups name group Hg) as [-> _].
  apply Hgroup; auto.
  apply Hkeys. apply (in_map fst) in Hg. exact Hg.
Qed.

Lemma filter_same_name_nonempty (name : string) (jobs : list Job) :
  In name (map job_name jobs) -> filter (same_name name) jobs <> [].
Proof.
  intros H. apply in_map_iff in H. destruct H as [j [Hj Hin]].
  assert (Hf : In j (filter (same_name name) jobs)).
  { apply filter_In. split; [exact Hin|].
    unfold same_name. rewrite Hj. apply String.eqb_refl. }
  intros E. now rewrite E in Hf.
Qed.

Lemma coherent_default : coherent default_stats.
Proof. unfold coherent. simpl. lia. Qed.

Lemma entry_update_coherent (v : Verdict) (pipeline_id n : Z) (s : JobStats) :
  1 <= n -> (v = Flaky -> 2 <= n) ->
  coherent s ->
  coherent (entry_update v pipeline_id n s)
  /\ 1 <= total_job_groups (entry_update v pipeline_id n s).
Proof.
  intros Hn Hflaky H. unfold coherent in *.
  destruct v; simpl; rewrite ?length_app; simpl;
    try (specialize (Hflaky eq_refl)); lia.
Qed.

(** X14. After the analysis of any list of results, the job names of
    [job_stats] are distinct and every entry is coherent: it has at least
    one group; its group count is the sum of its four verdict counts, none
    negative; each flaky group brought at least one retry; the retries of
    flaky and failed groups are within the total; and [flakey_pipelines]
    holds one pipeline id per flaky group. *)
Theorem job_stats_entries_are_coherent (results : list PipelineResult) :
  NoDup (map fst (job_stats (analyze_results results)))
  /\ Forall (fun item => coherent (snd item)
                         /\ 1 <= total_job_groups (snd item))
            (job_stats (analyze_results results)).
Proof.
  apply (analysis_invariant results
           (fun st =>
              NoDup (map fst (job_stats st))
              /\ Forall (fun item => coherent (snd item)
                                     /\ 1 <= total_job_groups (snd item))
                        (job_stats st))).
  - split; constructor.
  - intros st pid e H. exact H.
  - intros r name st Hr Hs Hname [HN HF].
    rewrite analyze_group_eq. cbn [job_stats].
    set (group := filter (same_name name) (jobs r)).
    assert (Hne : group <> []) by now apply filter_same_name_nonempty.
    assert (Hn : 1 <= Z.of_nat (List.length group)).
    { destruct group; [congruence | simpl List.length; lia]. }
    assert (Hfl : verdict (sort_by_id group) = Flaky ->
                  2 <= Z.of_nat (List.length group)).
    { rewrite verdict_sort_by_id. intros Hv.
      apply verdict_flaky_inv in Hv. destruct Hv.
      now apply two_statuses_two_jobs. }
    split; [now apply dict_update_NoDup|].
    apply (dict_update_Forall default_stats
             (fun s => coherent s /\ 1 <= total_job_groups s)).
    + intros s [Hc _]. now apply entry_update_coherent.
    + apply entry_update_coherent; auto. apply coherent_default.
    + exact HF.
Qed.

(** X15. [flakey_details] holds exactly one record per flaky group counted:
    its length is the sum of [flakey_occurrences] over all job names. *)
Theorem one_detail_per_flaky_group (results : list PipelineResult) :
  Z.of_nat (List.length (flakey_details (analyze_results results)))
  = Report.total_flakey (job_stats (analyze_results results)).
Proof.
  apply (analysis_invariant results
           (fun st => Z.of_nat (List.length (flakey_details st))
                      = Report.total_flakey (job_stats st))).
  - reflexivity.
  - intros st pid e H. exact H.
  - intros r name st _ _ _ H.
    pose proof (f_equal n_flakey
                  (totals_analyze_group (pipeline r) (pipeline_id r) name
                     (filter (same_name name) (jobs r)) st)) as Ht.
    cbn [totals n_flakey counts_add] in Ht. rewrite Ht, <- H.
    rewrite analyze_group_eq. cbn [flakey_details].
    destruct (verdict (sort_by_id (filter (same_name name) (jobs r))));
      simpl; rewrite ?length_app; simpl; lia.
Qed.

(** X16. Every record of [flakey_details] is the record of a group of a
    fetched pipeline: it carries that pipeline's id and ref, the number of
    executions of its job name in that pipeline, at least two, and their
    statuses in ascending order of job id, with a "failed" and a "success"
    among them. *)
Theorem every_detail_records_a_flaky_group (results : list PipelineResult) :
  Forall
    (fun d =>
       exists r,
         In r results /\ success r = true
         /\ d = detail_of r (fd_job_name d)
         /\ 2 <= fd_num_attempts d
         /\ In "failed" (fd_statuses d) /\ In "success" (fd_statuses d))
    (flakey_details (analyze_results results)).
Proof.
  apply (analysis_invariant results
           (fun st =>
              Forall
                (fun d =>
                   exists r,
                     In r results /\ success r = true
                     /\ d = detail_of r (fd_job_name d)
                     /\ 2 <= fd_num_attempts d
                     /\ In "failed" (fd_statuses d)
                     /\ In "success" (fd_statuses d))
                (flakey_details st))).
  - constructor.
  - intros st pid e H. exact H.
  - intros r name st Hr Hs _ H.
    rewrite analyze_group_eq. cbn [flakey_details].
    destruct (verdict (sort_by_id (filter (same_name name) (jobs r))))
      eqn:Hv; try exact H.
    apply Forall_app. split; [exact H|]. constructor; [|constructor].
    exists r. cbn [fd_job_name fd_num_attempts fd_statuses].
    rewrite verdict_sort_by_id in Hv. apply verdict_flaky_inv in Hv.
    destruct Hv as [Hf Hsu].
    repeat split; auto.
    + now apply two_statuses_two_jobs.
    + apply (Permutation_in _ (Permutation_sym (sort_by_id_statuses _))).
      exact Hf.
    + apply (Permutation_in _ (Permutation_sym (sort_by_id_statuses _))).
      exact Hsu.
Qed.

(* ----------------------------------------------------------------- *)
(** ** What the counters count *)

Lemma counts_sum_field (field : Counts -> Z) (l : list Counts) :
  field counts_zero = 0 ->
  (forall a b, field (counts_add a b) = field a + field b) ->
  field (counts_sum l) = zsum (map field l).
Proof.
  intros H0 Hadd. induction l as [|x l IH]; simpl; [exact H0|].
  now rewrite Hadd, IH.
Qed.

Lemma group_lengths_update (job : Job) (d : Dict (list Job)) :
  zsum (map (fun g => Z.of_nat (List.length (snd g)))
            (dict_update [] (job_name job) (fun l => l ++ [job]) d))
  = zsum (map (fun g => Z.of_nat (List.length (snd g))) d) + 1.
Proof.
  induction d as [|[k v] d IH]; simpl.
  - lia.
  - destruct (String.eqb k (job_name job)); simpl.
    + rewrite length_app. simpl. lia.
    + rewrite IH. lia.
Qed.

Lemma group_lengths (jobs : list Job) :
  zsum (map (fun g => Z.of_nat (List.length (snd g))) (group_by_name jobs))
  = Z.of_nat (List.length jobs).
Proof.
  unfold group_by_name.
  assert (H : forall d,
            zsum (map (fun g => Z.of_nat (List.length (snd g)))
                      (fold_left
                         (fun d' job =>
                            dict_update [] (job_name job)
                                        (fun l => l ++ [job]) d')
                         jobs d))
            = zsum (map (fun g => Z.of_nat (List.length (snd g))) d)
              + Z.of_nat (List.length jobs)).
  { induction jobs as [|j jobs IH]; intros d; simpl List.length; simpl fold_left.
    - lia.
    - rewrite IH, group_lengths_update. lia. }
  rewrite H. simpl. lia.
Qed.

Lemma totals_of_results (results : list PipelineResult) :
  totals (job_stats (analyze_results results))
  = counts_sum
      (map (result_delta
              (fun _ job_list =>
                 group_counts (verdict (sort_by_id job_list))
                              (Z.of_nat (List.length job_list))))
           results).
Proof.
  unfold analyze_results.
  rewrite (m_results totals
             (fun _ job_list =>
                group_counts (verdict (sort_by_id job_list))
                             (Z.of_nat (List.length job_list)))).
  - change (totals (job_stats initial)) with counts_zero.
    now rewrite counts_add_comm, counts_add_zero_r.
  - intros. apply totals_analyze_group.
Qed.

Lemma counts_at_of_results (name : string) (results : list PipelineResult) :
  counts_at name (job_stats (analyze_results results))
  = counts_sum
      (map (result_delta
              (fun name0 job_list =>
                 if String.eqb name0 name
                 then group_counts (verdict (sort_by_id job_list))
                                   (Z.of_nat (List.length job_list))
                 else counts_zero))
           results).
Proof.
  unfold analyze_results.
  rewrite (m_results (counts_at name)
             (fun name0 job_list =>
                if String.eqb name0 name
                then group_counts (verdict (sort_by_id job_list))
                                  (Z.of_nat (List.length job_list))
                else counts_zero)).
  - change (counts_at name (job_stats initial)) with counts_zero.
    now rewrite counts_add_comm, counts_add_zero_r.
  - intros. apply counts_at_analyze_group_add.
Qed.

(** X17. Retries are the executions beyond the first of each group: over all
    job names, [total_retry_attempts] plus [total_job_groups] is the number
    of job executions of the pipelines that were fetched. *)
Theorem retries_plus_groups_are_executions (results : list PipelineResult) :
  Report.total_all_retries (job_stats (analyze_results results))
  + Report.total_job_groups (job_stats (analyze_results results))
  = executions results.
Proof.
  change (Report.total_all_retries (job_stats (analyze_results results))
          + Report.total_job_groups (job_stats (analyze_results results)))
    with ((fun c => n_retries c + n_groups c)
            (totals (job_stats (analyze_results results)))).
  rewrite totals_of_results.
  rewrite (counts_sum_field (fun c => n_retries c + n_groups c));
    [|reflexivity | intros; simpl; lia].
  unfold executions. fold (zsum (map (fun r => if success r
                                     then Z.of_nat (List.length (jobs r))
                                     else 0) results)).
  rewrite map_map. f_equal. apply map_ext. intros r.
  unfold result_delta. destruct (success r); [|reflexivity].
  rewrite (counts_sum_field (fun c => n_retries c + n_groups c));
    [|reflexivity | intros; simpl; lia].
  rewrite map_map, <- group_lengths. f_equal. apply map_ext.
  intros g. destruct (verdict (sort_by_id (snd g))); simpl; lia.
Qed.

Lemma count_key (name : string) (groups : Dict (list Job))
  (delta : list Job -> Counts) :
  NoDup (map fst groups) ->
  (forall job_list, n_groups (delta job_list) = 1) ->
  zsum (map (fun g => n_groups (if String.eqb (fst g) name
                                then delta (snd g) else counts_zero))
            groups)
  = if existsb (String.eqb name) (map fst groups) then 1 else 0.
Proof.
  intros HN Hd. induction groups as [|[k v] groups IH]; [reflexivity|].
  inversion HN as [|? ? Hk HN']; subst. cbn [map zsum fold_right fst snd existsb].
  fold (zsum (map (fun g => n_groups (if String.eqb (fst g) name
                                      then delta (snd g) else counts_zero))
                  groups)).
  rewrite (IH HN'). rewrite (String.eqb_sym name k).
  destruct (String.eqb k name) eqn:E; simpl.
  - rewrite Hd. apply String.eqb_eq in E. subst k.
    destruct (existsb (String.eqb name) (map fst groups)) eqn:Ex; [|lia].
    exfalso. apply Hk. apply existsb_exists in Ex.
    destruct Ex as [x [Hx Hxe]]. apply String.eqb_eq in Hxe. now subst x.
  - reflexivity.
Qed.

Lemma existsb_keys (name : string) (jobs : list Job) :
  existsb (String.eqb name) (map fst (group_by_name jobs))
  = existsb (same_name name) jobs.
Proof.
  destruct (existsb (same_name name) jobs) eqn:E.
  - apply existsb_exists in E. destruct E as [j [Hj Hn]].
    unfold same_name in Hn. apply String.eqb_eq in Hn.
    apply existsb_exists. exists name. split; [|apply String.eqb_refl].
    apply group_by_name_keys. rewrite <- Hn. now apply in_map.
  - destruct (existsb (String.eqb name) (map fst (group_by_name jobs))) eqn:E';
      [|reflexivity].
    apply existsb_exists in E'. destruct E' as [x [Hx Hn]].
    apply String.eqb_eq in Hn. subst x.
    apply group_by_name_keys in Hx. apply in_map_iff in Hx.
    destruct Hx as [j [Hj Hin]].
    assert (H : existsb (same_name name) jobs = true).
    { apply existsb_exists. exists j. split; [exact Hin|].
      unfold same_name. rewrite Hj. apply String.eqb_refl. }
    congruence.
Qed.

(** X18. [total_job_groups] of a job name counts pipelines, not executions:
    it is the number of fetched pipelines in which a job of that name ran,
    however many times it ran there. *)
Theorem group_count_is_number_of_pipelines (name : string)
  (results : list PipelineResult) :
  total_job_groups
    (dict_get default_stats name (job_stats (analyze_results results)))
  = Z.of_nat (List.length (pipelines_running name results)).
Proof.
  change (total_job_groups
            (dict_get default_stats name (job_stats (analyze_results results))))
    with (n_groups (counts_at name (job_stats (analyze_results results)))).
  rewrite counts_at_of_results.
  rewrite (counts_sum_field n_groups); [|reflexivity | intros; reflexivity].
  rewrite map_map. unfold pipelines_running.
  induction results as [|r results IH]; [reflexivity|].
  cbn [map zsum fold_right filter].
  fold (zsum (map (fun x => n_groups
                     (result_delta
                        (fun name0 job_list =>
                           if String.eqb name0 name
                           then group_counts (verdict (sort_by_id job_list))
                                  (Z.of_nat (List.length job_list))
                           else counts_zero) x)) results)).
  rewrite IH. unfold result_delta at 1.
  destruct (success r); simpl andb.
  - rewrite (counts_sum_field n_groups); [|reflexivity | intros; reflexivity].
    rewrite map_map.
    rewrite (count_key name (group_by_name (jobs r))
               (fun job_list =>
                  group_counts (verdict (sort_by_id job_list))
                               (Z.of_nat (List.length job_list)))).
    + rewrite existsb_keys.
      destruct (existsb (same_name name) (jobs r)); simpl List.length; lia.
    + apply group_by_name_NoDup.
    + intros job_list. now destruct (verdict (sort_by_id job_list)).
  - simpl. lia.
Qed.

Lemma fold_groups_details (p : Pipeline) (pipeline_id : Z)
  (groups : Dict (list Job)) :
  exists D, forall st,
    flakey_details
      (fold_left
         (fun st' group =>
            analyze_group p pipeline_id (fst group) (snd group) st')
         groups st)
    = flakey_details st ++ D.
Proof.
  induction groups as [|g groups [D IH]].
  - exists []. intros st. simpl. now rewrite app_nil_r.
  - exists (match verdict (sort_by_id (snd g)) with
            | Flaky => [mkDetail pipeline_id (pipeline_ref p) (fst g)
                          (Z.of_nat (List.length (snd g)))
                          (map job_status (sort_by_id (snd g)))]
            | _ => []
            end ++ D).
    intros st. simpl. rewrite IH, analyze_group_eq. cbn [flakey_details].
    destruct (verdict (sort_by_id (snd g)));
      rewrite <- ?app_assoc; simpl; reflexivity.
Qed.

Lemma analyze_result_details (r : PipelineResult) (st : State) :
  flakey_details (analyze_result r st)
  = flakey_details st ++ flakey_details (analyze_result r initial).
Proof.
  unfold analyze_result. destruct (success r); simpl.
  - destruct (fold_groups_details (pipeline r) (pipeline_id r)
                (group_by_name (jobs r))) as [D HD].
    now rewrite (HD st), (HD initial).
  - now rewrite app_nil_r.
Qed.

Lemma analyze_results_details (results : list PipelineResult) :
  forall st,
    flakey_details (fold_left (fun st' r => analyze_result r st') results st)
    = flakey_details st
      ++ flat_map (fun r => flakey_details (analyze_result r initial)) results.
Proof.
  induction results as [|r results IH]; intros st; simpl.
  - now rewrite app_nil_r.
  - now rewrite IH, analyze_result_details, <- app_assoc.
Qed.

(** X19. The order in which the results arrive changes the order of
    [flakey_details] and nothing else: the same records come out, each as
    many times. *)
Theorem flaky_details_are_the_same_records_in_any_order
  (results results' : list PipelineResult) :
  Permutation results results' ->
  Permutation (flakey_details (analyze_results results))
              (flakey_details (analyze_results results')).
Proof.
  intros HP. unfold analyze_results. rewrite !analyze_results_details.
  simpl. now apply Permutation_flat_map.
Qed.

Lemma flaky_details_are_the_same_records_in_any_order_witness :
  Permutation
    (flakey_details (analyze_results
       [Examples.result_101; Examples.result_103; Examples.result_102]))
    (flakey_details (analyze_results
       [Examples.result_102; Examples.result_101; Examples.result_103])).
Proof.
  apply flaky_details_are_the_same_records_in_any_order.
  apply Permutation_sym.
  apply (Permutation_cons_app [Examples.result_101; Examples.result_103] []).
  apply Permutation_refl.
Defined.

(* ----------------------------------------------------------------- *)
(** ** The report: percentages *)

Import Summary.

Lemma percent_bounds (part whole : Z) :
  0 <= part -> part <= whole -> 0 < whole ->
  (0 <= percent part whole)%Q /\ (percent part whole <= inject_Z 100)%Q.
Proof.
  intros H0 H1 H2. unfold percent.
  destruct whole as [|w|w]; try lia.
  unfold Qle, Qmult, Qdiv, Qinv, inject_Z. simpl.
  split; nia.
Qed.

Lemma zsum_nonneg (l : list Z) : Forall (fun x => 0 <= x) l -> 0 <= zsum l.
Proof. induction 1; simpl; lia. Qed.

Lemma zsum_le (f g : JobStats -> Z) (d : Dict JobStats) :
  Forall (fun item => f (snd item) <= g (snd item)) d ->
  Report.sum_field f d <= Report.sum_field g d.
Proof.
  rewrite !sum_field_zsum. induction 1; simpl; lia.
Qed.

Lemma sum_field_nonneg (f : JobStats -> Z) (d : Dict JobStats) :
  Forall (fun item => 0 <= f (snd item)) d -> 0 <= Report.sum_field f d.
Proof.
  rewrite sum_field_zsum. induction 1; simpl; lia.
Qed.

Lemma coherent_entries (results : list PipelineResult) :
  Forall (fun item => coherent (snd item)
                      /\ 1 <= total_job_groups (snd item))
         (job_stats (analyze_results results)).
Proof.
  apply (analysis_invariant results
           (fun st =>
              Forall (fun item => coherent (snd item)
                                  /\ 1 <= total_job_groups (snd item))
                     (job_stats st))).
  - constructor.
  - intros st pid e H. exact H.
  - intros r name st Hr Hs Hname HF.
    rewrite analyze_group_eq. cbn [job_stats].
    set (group := filter (same_name name) (jobs r)).
    assert (Hne : group <> []) by now apply filter_same_name_nonempty.
    assert (Hn : 1 <= Z.of_nat (List.length group)).
    { destruct group; [congruence | simpl List.length; lia]. }
    assert (Hfl : verdict (sort_by_id group) = Flaky ->
                  2 <= Z.of_nat (List.length group)).
    { rewrite verdict_sort_by_id. intros Hv.
      apply verdict_flaky_inv in Hv. destruct Hv.
      now apply two_statuses_two_jobs. }
    apply (dict_update_Forall default_stats
             (fun s => coherent s /\ 1 <= total_job_groups s)).
    + intros s [Hc _]. now apply entry_update_coherent.
    + apply entry_update_coherent; auto. apply coherent_default.
    + exact HF.
Qed.

Lemma totals_bounds (results : list PipelineResult) :
  let js := job_stats (analyze_results results) in
  0 <= Report.total_flakey js /\ 0 <= Report.total_clean js
  /\ 0 <= Report.total_legitimate js /\ 0 <= Report.total_other js
  /\ Report.total_job_groups js
     = Report.total_flakey js + Report.total_legitimate js
       + Report.total_clean js + Report.total_other js.
Proof.
  intros js. pose proof (coherent_entries results) as H. fold js in H.
  unfold Report.total_flakey, Report.total_clean, Report.total_legitimate,
    Report.total_other, Report.total_job_groups.
  repeat split.
  - apply sum_field_nonneg. eapply Forall_impl; [|exact H].
    intros item [Hc _]. unfold coherent in Hc. tauto.
  - apply sum_field_nonneg. eapply Forall_impl; [|exact H].
    intros item [Hc _]. unfold coherent in Hc. tauto.
  - apply sum_field_nonneg. eapply Forall_impl; [|exact H].
    intros item [Hc _]. unfold coherent in Hc. tauto.
  - apply sum_field_nonneg. eapply Forall_impl; [|exact H].
    intros item [Hc _]. unfold coherent in Hc. tauto.
  - rewrite !sum_field_zsum. clear - H. induction H as [|item d [Hc _] _ IH].
    + reflexivity.
    + simpl. unfold coherent in Hc. lia.
Qed.

(** X20. Every percentage the report prints for an analysis lies between 0
    and 100: the flakiness and reliability rates, the four percentages of
    the overall summary, and the two percentages of every row of the job
    table. *)
Theorem report_percentages_are_between_0_and_100
  (results : list PipelineResult) :
  let js := job_stats (analyze_results results) in
  let bounded (q : Q) := (0 <= q)%Q /\ (q <= inject_Z 100)%Q in
  match Report.flakiness_rate js with Some q => bounded q | None => True end
  /\ match Report.reliability_rate js with
     | Some q => bounded q
     | None => True
     end
  /\ match overall_summary js with
     | Some s => bounded (pct_clean s) /\ bounded (pct_flakey s)
                 /\ bounded (pct_legitimate s) /\ bounded (pct_other s)
     | None => True
     end
  /\ Forall (fun item => bounded (flakiness_pct (snd item))
                         /\ bounded (reliability_pct (snd item))) js.
Proof.
  intros js bounded.
  pose proof (totals_bounds results) as Hb. cbv zeta in Hb. fold js in Hb.
  destruct Hb as [Hf [Hc [Hl [Ho Hsum]]]].
  assert (Hzero : bounded 0%Q) by (split; unfold Qle; simpl; lia).
  assert (Hfull : bounded (inject_Z 100)) by (split; unfold Qle; simpl; lia).
  split; [|split; [|split]].
  - unfold Report.flakiness_rate.
    destruct (Report.total_job_groups js >? 0) eqn:E; [|exact I].
    apply Z.gtb_lt in E. apply percent_bounds; lia.
  - unfold Report.reliability_rate.
    destruct (Report.total_job_groups js >? 0) eqn:E; [|exact I].
    destruct (Report.total_clean js + Report.total_flakey js >? 0) eqn:E';
      [|exact Hfull].
    apply Z.gtb_lt in E'. apply percent_bounds; lia.
  - unfold overall_summary.
    destruct (Report.total_job_groups js =? 0) eqn:E; [exact I|].
    apply Z.eqb_neq in E. cbn [pct_clean pct_flakey pct_legitimate pct_other].
    repeat split; apply percent_bounds; lia.
  - pose proof (coherent_entries results) as H. fold js in H.
    eapply Forall_impl; [|exact H].
    intros item [Hco H1]. unfold coherent in Hco.
    unfold flakiness_pct, reliability_pct.
    replace (total_job_groups (snd item) >? 0) with true
      by (symmetry; apply Z.gtb_lt; lia).
    split; [apply percent_bounds; lia|].
    destruct (clean_successes (snd item) + flakey_occurrences (snd item) >? 0)
      eqn:E; [|exact Hzero].
    apply Z.gtb_lt in E. apply percent_bounds; lia.
Qed.

Lemma groups_of_results (results : list PipelineResult) :
  Report.total_job_groups (job_stats (analyze_results results))
  = zsum (map (fun r => if success r
                        then Z.of_nat (List.length (group_by_name (jobs r)))
                        else 0) results).
Proof.
  change (Report.total_job_groups (job_stats (analyze_results results)))
    with (n_groups (totals (job_stats (analyze_results results)))).
  rewrite totals_of_results.
  rewrite (counts_sum_field n_groups); [|reflexivity | intros; reflexivity].
  rewrite map_map. f_equal. apply map_ext. intros r.
  unfold result_delta. destruct (success r); [|reflexivity].
  rewrite (counts_sum_field n_groups); [|reflexivity | intros; reflexivity].
  rewrite map_map.
  induction (group_by_name (jobs r)) as [|g gs IH]; [reflexivity|].
  cbn [map zsum fold_right List.length].
  fold (zsum (map (fun x => n_groups
                     (group_counts (verdict (sort_by_id (snd x)))
                        (Z.of_nat (List.length (snd x))))) gs)).
  rewrite IH. destruct (verdict (sort_by_id (snd g))); simpl n_groups; lia.
Qed.

Lemma zsum_zero (l : list Z) :
  Forall (fun x => 0 <= x) l -> (zsum l = 0 <-> Forall (fun x => x = 0) l).
Proof.
  induction 1 as [|x l Hx Hl IH]; simpl.
  - split; [constructor | reflexivity].
  - pose proof (zsum_nonneg l Hl). split.
    + intros H0. constructor; [lia|]. apply IH. lia.
    + intros HF. inversion HF; subst. apply IH in H3. lia.
Qed.

(** X21. The report cannot be written for an analysis without any job
    execution: the summary divides by the number of groups before testing
    it, so [write_flakiness_analysis_stats] raises [ZeroDivisionError]
    exactly when every fetched pipeline has an empty job list (in
    particular when every fetch failed). *)
Theorem summary_divides_by_zero_without_jobs (results : list PipelineResult) :
  overall_summary (job_stats (analyze_results results)) = None
  <-> (forall r, In r results -> success r = true -> jobs r = []).
Proof.
  unfold overall_summary.
  pose proof (groups_of_results results) as Hg.
  set (terms := map (fun r => if success r
                              then Z.of_nat
                                     (List.length (group_by_name (jobs r)))
                              else 0) results) in Hg.
  assert (Hpos : Forall (fun x => 0 <= x) terms).
  { unfold terms. apply Forall_forall. intros x Hx.
    apply in_map_iff in Hx. destruct Hx as [r [<- _]].
    destruct (success r); lia. }
  assert (Hempty : forall js : list Job,
            List.length (group_by_name js) = 0%nat <-> js = []).
  { intros js. split; [|intros ->; reflexivity].
    intros H. destruct js as [|j js]; [reflexivity|].
    assert (Hin : In (job_name j) (map fst (group_by_name (j :: js)))).
    { apply group_by_name_keys. now left. }
    destruct (group_by_name (j :: js)); [destruct Hin | discriminate]. }
  split.
  - intros H r Hr Hs.
    destruct (Report.total_job_groups (job_stats (analyze_results results))
              =? 0) eqn:E; [|discriminate].
    apply Z.eqb_eq in E. rewrite Hg in E.
    apply (zsum_zero terms Hpos) in E. rewrite Forall_forall in E.
    specialize (E (if success r
                   then Z.of_nat (List.length (group_by_name (jobs r)))
                   else 0)).
    rewrite Hs in E. apply Hempty.
    assert (H0 : Z.of_nat (List.length (group_by_name (jobs r))) = 0).
    { apply E. unfold terms. apply in_map_iff. exists r.
      rewrite Hs. auto. }
    lia.
  - intros H.
    replace (Report.total_job_groups (job_stats (analyze_results results))
             =? 0) with true; [reflexivity|].
    symmetry. apply Z.eqb_eq. rewrite Hg.
    apply (zsum_zero terms Hpos). unfold terms.
    apply Forall_forall. intros x Hx. apply in_map_iff in Hx.
    destruct Hx as [r [<- Hr]]. destruct (success r) eqn:Hs; [|reflexivity].
    now rewrite (H r Hr Hs).
Qed.

(* ----------------------------------------------------------------- *)
(** ** File names *)

Import Sanitize.

Lemma kept_filename_char (c : ascii) :
  kept c = true ->
  filename_char (if Ascii.eqb c " "%char then "_"%char else c) = true.
Proof.
  unfold kept, filename_char. intros H.
  destruct (Ascii.eqb c " "%char) eqn:Esp; [reflexivity|].
  destruct (Ascii.eqb c "_"%char) eqn:Eu.
  - apply Ascii.eqb_eq in Eu. subst c. reflexivity.
  - destruct (is_word c); [reflexivity|].
    destruct (Ascii.eqb c "-"%char); [reflexivity|].
    simpl in *. rewrite !orb_false_r in H. rewrite H, Esp. reflexivity.
Qed.

Lemma filename_char_kept (c : ascii) :
  filename_char c = true -> kept c = true /\ Ascii.eqb c " "%char = false.
Proof.
  unfold kept, filename_char. intros H.
  destruct (Ascii.eqb c " "%char) eqn:Esp.
  - apply Ascii.eqb_eq in Esp. subst c. discriminate H.
  - split; [|reflexivity].
    destruct (is_word c); [reflexivity|].
    destruct (Ascii.eqb c "-"%char); [now rewrite orb_true_r|].
    simpl in H. rewrite andb_true_r in H. now rewrite H.
Qed.

Lemma sanitize_fixpoint (name : string) :
  all_chars filename_char name = true -> sanitize_filename name = name.
Proof.
  unfold sanitize_filename.
  induction name as [|c name IH]; intros H; [reflexivity|].
  cbn [all_chars] in H. apply andb_prop in H. destruct H as [Hc Hrest].
  destruct (filename_char_kept c Hc) as [Hk Hsp].
  cbn [remove_unwanted]. rewrite Hk. cbn [replace_spaces]. rewrite Hsp.
  now rewrite (IH Hrest).
Qed.

Lemma sanitize_chars (name : string) :
  all_chars filename_char (sanitize_filename name) = true.
Proof.
  unfold sanitize_filename.
  induction name as [|c name IH]; [reflexivity|].
  cbn [remove_unwanted]. destruct (kept c) eqn:Hk; [|exact IH].
  cbn [replace_spaces all_chars]. rewrite IH.
  now rewrite (kept_filename_char c Hk).
Qed.

(** X22. A sanitized project name is made of word characters, hyphens and
    whitespace other than the space only; in particular it holds no space,
    no slash, no backslash, no dot and no colon, so the file names built
    from it stay in the working directory. *)
Theorem sanitized_name_has_safe_characters (name : string) :
  all_chars filename_char (sanitize_filename name) = true
  /\ filename_char " "%char = false
  /\ filename_char "/"%char = false
  /\ filename_char "\"%char = false
  /\ filename_char "."%char = false
  /\ filename_char ":"%char = false.
Proof.
  split; [apply sanitize_chars|]. repeat split; reflexivity.
Qed.

(** X23. Sanitizing is idempotent: a sanitized name is sanitized to
    itself. *)
Theorem sanitize_filename_is_idempotent (name : string) :
  sanitize_filename (sanitize_filename name) = sanitize_filename name.
Proof. apply sanitize_fixpoint, sanitize_chars. Qed.

(** The project of the script: "Mobile - LC-App". *)
Example sanitize_project_name :
  sanitize_filename "Mobile - LC-App (v1.2)" = "Mobile_-_LC-App_v12".
Proof. reflexivity. Qed.

(* ================================================================= *)
(** * The dispatcher: every pipeline, once, with its own record *)

Import Pool.

(* ----------------------------------------------------------------- *)
(** ** Completion orders *)

Section KeySort.

Context {B : Type}.
Variable key : B -> nat.

Lemma insert_sorted_by_key (x : B) (l : list B) :
  StronglySorted (ascending key) l ->
  StronglySorted (ascending key)
    (insert_sorted (fun a b => Nat.leb (key a) (key b)) x l).
Proof.
  induction l as [|y l IH]; intros Hs; simpl.
  - constructor; constructor.
  - inversion Hs as [|y' l' Hs' Hy]; subst.
    destruct (Nat.leb (key x) (key y)) eqn:E.
    + apply Nat.leb_le in E. constructor; [exact Hs|].
      constructor; [exact E|].
      eapply Forall_impl; [|exact Hy].
      intros b Hb. unfold ascending in *. lia.
    + apply Nat.leb_gt in E. constructor; [now apply IH|].
      eapply Permutation_Forall.
      * apply Permutation_sym, insert_sorted_perm.
      * constructor; [unfold ascending; lia | exact Hy].
Qed.

Lemma stable_sort_by_key (l : list B) :
  StronglySorted (ascending key)
    (stable_sort (fun a b => Nat.leb (key a) (key b)) l).
Proof.
  induction l as [|x l IH]; simpl.
  - constructor.
  - now apply insert_sorted_by_key.
Qed.

(** Two lists with the same elements, in ascending order of a key that
    tells the elements apart, are the same list. *)
Lemma sorted_by_key_unique (l1 : list B) :
  forall l2,
    StronglySorted (ascending key) l1 -> StronglySorted (ascending key) l2 ->
    Permutation l1 l2 ->
    (forall a b, In a l1 -> In b l1 -> key a = key b -> a = b) ->
    l1 = l2.
Proof.
  induction l1 as [|a l1 IH]; intros l2 H1 H2 HP Hinj.
  - apply Permutation_nil in HP. now subst.
  - destruct l2 as [|b l2].
    { apply Permutation_sym, Permutation_nil in HP. discriminate HP. }
    inversion H1 as [|a' l1' H1' Ha]; subst.
    inversion H2 as [|b' l2' H2' Hb]; subst.
    assert (Hab : (key a <= key b)%nat).
    { assert (Hin : In b (a :: l1))
        by (apply (Permutation_in _ (Permutation_sym HP)); now left).
      destruct Hin as [-> | Hin]; [lia|].
      rewrite Forall_forall in Ha. now apply Ha. }
    assert (Hba : (key b <= key a)%nat).
    { assert (Hin : In a (b :: l2))
        by (apply (Permutation_in _ HP); now left).
      destruct Hin as [-> | Hin]; [lia|].
      rewrite Forall_forall in Hb. now apply Hb. }
    assert (Heq : a = b).
    { apply Hinj; [now left | | lia].
      apply (Permutation_in _ (Permutation_sym HP)). now left. }
    subst b. f_equal.
    apply IH; auto.
    + now apply Permutation_cons_inv in HP.
    + intros x y Hx Hy. apply Hinj; now right.
Qed.

End KeySort.

Lemma StronglySorted_weaken {B : Type} (R R' : B -> B -> Prop) (l : list B) :
  (forall a b, In a l -> In b l -> R a b -> R' a b) ->
  StronglySorted R l -> StronglySorted R' l.
Proof.
  induction l as [|x l IH]; intros H Hs; [constructor|].
  inversion Hs as [|x' l' Hs' Hx]; subst.
  constructor.
  - apply IH; [|exact Hs'].
    intros a b Ha Hb. apply H; now right.
  - rewrite Forall_forall in *. intros b Hb.
    apply H; [now left | now right | now apply Hx].
Qed.

Lemma position_tail (x i : nat) (order : list nat) :
  x <> i -> position i (x :: order) = S (position i order).
Proof.
  intros H. simpl. apply Nat.eqb_neq in H. now rewrite H.
Qed.

Lemma position_sorted (order : list nat) :
  NoDup order ->
  StronglySorted (ascending (fun i => position i order)) order.
Proof.
  induction order as [|x order IH]; intros Hnd; [constructor|].
  inversion Hnd as [|x' l' Hx Hnd']; subst.
  constructor.
  - apply (StronglySorted_weaken (ascending (fun i => position i order))).
    + intros a b Ha Hb Hab. unfold ascending in *.
      rewrite !position_tail by (intros ->; contradiction). lia.
    + now apply IH.
  - apply Forall_forall. intros b _. unfold ascending. simpl.
    rewrite Nat.eqb_refl. lia.
Qed.

Lemma position_injective (order : list nat) :
  forall a b, In a order -> In b order ->
              position a order = position b order -> a = b.
Proof.
  induction order as [|x order IH]; intros a b Ha Hb; [contradiction|].
  simpl.
  destruct (Nat.eqb x a) eqn:Ea; destruct (Nat.eqb x b) eqn:Eb;
    try discriminate.
  - apply Nat.eqb_eq in Ea, Eb. congruence.
  - apply Nat.eqb_neq in Ea, Eb. intros [= H].
    destruct Ha as [Ha|Ha]; [contradiction|].
    destruct Hb as [Hb|Hb]; [contradiction|].
    now apply IH.
Qed.

Lemma completion_order_permutation (finish : nat -> nat) (n : nat) :
  Permutation (completion_order finish n) (seq 0 n).
Proof. apply stable_sort_perm. Qed.

(** The model of [as_completed] leaves no order out: every order of the
    tasks is the completion order of some finishing times. *)
Lemma every_order_is_a_completion_order (n : nat) (order : list nat) :
  Permutation order (seq 0 n) ->
  completion_order (fun i => position i order) n = order.
Proof.
  intros HP.
  assert (HP' : Permutation
                  (completion_order (fun i => position i order) n) order).
  { eapply perm_trans; [apply completion_order_permutation|].
    now apply Permutation_sym. }
  apply (sorted_by_key_unique (fun i => position i order)).
  - apply stable_sort_by_key.
  - apply position_sorted.
    apply (Permutation_NoDup (Permutation_sym HP)), seq_NoDup.
  - exact HP'.
  - intros a b Ha Hb. apply position_injective.
    + exact (Permutation_in _ HP' Ha).
    + exact (Permutation_in _ HP' Hb).
Qed.

(* ----------------------------------------------------------------- *)
(** ** A collection against a ranked server ends *)




(** The loop has no bound of its own: against a server that hands out a
    next link with every page it is still running on any fuel, and so is
    the task of the pool that runs it. *)
Lemma page_loop_endless (fuel : nat) :
  forall u params items c,
    PyStr.truthy u = true ->
    page_loop fuel server_endless (Some u) params items c = None.
Proof.
  induction fuel as [|fuel IH]; intros u params items c Hu.
  - simpl. now rewrite Hu.
  - rewrite (nonempty_page_continues fuel server_endless u params items c
               (Attempt.after_get
                  (Responded
                     (Examples.page [mkJob 1 "build" "success"]
                        (Some (Examples.link_to "https://gitlab.com/next"))))
                  c)
               (Examples.page [mkJob 1 "build" "success"]
                  (Some (Examples.link_to "https://gitlab.com/next")))).
    + apply IH. reflexivity.
    + exact Hu.
    + now apply first_attempt_success.
    + discriminate.
Qed.

Lemma endless_pagination_never_ends (fuel : nat) (project_id : string)
  (i : nat) (p : Pipeline) :
  run_task fuel (fun _ => server_endless) project_id i p = None.
Proof.
  unfold run_task, fetch_pipeline_jobs_with_metadata.
  rewrite fetch_pipeline_jobs_eq, page_loop_endless; reflexivity.
Qed.

(* ----------------------------------------------------------------- *)
(** ** The results of the pool *)








